(** * StudioCast portal: the data model, the sequence allocator, the progress
    calculator, the derived views and the repository mutations of [src/App.ts],
    embedded as Rocq functions, followed by the properties of the
    specification that concern them.

    Conventions of the embedding.
    - A JavaScript string is a [string]: a sequence of characters with codes
      below 256, read as UTF-16 code units of the Latin-1 range.
    - A JavaScript number that the program uses as an integer (episode
      numbers, timestamps, percentages, counters) is a [Z]; a quotient is a
      [Q] and [Math.round] is taken on exact rationals.
    - React state is passed explicitly: an event handler is a function from
      the state it closes over (and the values it reads from the environment:
      [Date.now()], [uid()], [confirm()]) to the next state.
    - [localStorage] is read and written through [load] and [save]; writes
      are taken to succeed. *)

From Stdlib Require Import ZArith QArith Qround List String Ascii Bool.
From Stdlib Require Import Permutation Sorted Lia DecimalString.
From stdpp Require gmap strings.
Import ListNotations.

Local Open Scope string_scope.
Local Open Scope list_scope.
Local Open Scope Z_scope.

(* ================================================================== *)
(** * Part I: definitions *)
(* ================================================================== *)

(** ** Host functions on strings *)

(** [String.prototype.toLowerCase] on one code unit of the Latin-1 range:
    [A-Z] and the accented capitals U+00C0..U+00DE (except the
    multiplication sign U+00D7) move up by 32. *)
Definition lower_ascii (c : ascii) : ascii :=
  let n := N_of_ascii c in
  if ((65 <=? n) && (n <=? 90))%N then ascii_of_N (n + 32)
  else if ((192 <=? n) && (n <=? 222) && negb (n =? 215))%N then ascii_of_N (n + 32)
  else c.

Fixpoint toLowerCase (s : string) : string :=
  match s with
  | EmptyString => EmptyString
  | String c s' => String (lower_ascii c) (toLowerCase s')
  end.

(** White space and line terminators of the Latin-1 range, as stripped by
    [String.prototype.trim]: TAB, LF, VT, FF, CR, SPACE and NBSP. *)
Definition isWhiteSpace (c : ascii) : bool :=
  let n := N_of_ascii c in
  (((9 <=? n) && (n <=? 13)) || (n =? 32) || (n =? 160))%N.

Fixpoint trimStart (s : string) : string :=
  match s with
  | EmptyString => EmptyString
  | String c s' => if isWhiteSpace c then trimStart s' else s
  end.

(** [trimEnd] keeps a character when it is not white space or when something
    survives after it. *)
Fixpoint trimEnd (s : string) : string :=
  match s with
  | EmptyString => EmptyString
  | String c s' =>
      match trimEnd s' with
      | EmptyString => if isWhiteSpace c then EmptyString else String c EmptyString
      | r => String c r
      end
  end.

Definition trim (s : string) : string := trimEnd (trimStart s).

(** JavaScript truthiness of a string: [!s] is [true] exactly for [""]. *)
Definition falsy (s : string) : bool := (s =? "")%string.

(** [s.startsWith(p)]. *)
Fixpoint startsWith (s p : string) {struct p} : bool :=
  match p with
  | EmptyString => true
  | String a p' =>
      match s with
      | EmptyString => false
      | String b s' => Ascii.eqb a b && startsWith s' p'
      end
  end.

(** [hay.includes(needle)]: [needle] starts at some position of [hay]. *)
Fixpoint includes (hay needle : string) : bool :=
  if startsWith hay needle then true
  else match hay with
       | EmptyString => false
       | String _ hay' => includes hay' needle
       end.

(** [xs.join(sep)]. *)
Fixpoint join (sep : string) (xs : list string) : string :=
  match xs with
  | [] => ""
  | [x] => x
  | x :: rest => x ++ sep ++ join sep rest
  end.

(** [s.split(sep)] for a one-character separator: the pieces between the
    occurrences of [sep]; never an empty array. *)
Fixpoint split (sep : ascii) (s : string) : list string :=
  match s with
  | EmptyString => [""]
  | String c s' =>
      if Ascii.eqb c sep then "" :: split sep s'
      else match split sep s' with
           | [] => [String c ""]
           | piece :: rest => String c piece :: rest
           end
  end.

(** ** Host functions on numbers and arrays *)

(** [Math.round]: the nearest integer, halves going up. *)
Definition Math_round (q : Q) : Z := Qfloor (q + (1 # 2)).

(** The result of a JavaScript division: finite unless the divisor is zero,
    in which case it is [NaN] (for [0/0]) or an infinity. *)
Inductive jsnum : Type :=
  | Finite (q : Q)
  | NaN
  | Infinity (negative : bool).

Definition js_div (a b : Z) : jsnum :=
  if b =? 0 then (if a =? 0 then NaN else Infinity (a <? 0))
  else Finite (inject_Z a / inject_Z b).

Definition js_round (x : jsnum) : jsnum :=
  match x with
  | Finite q => Finite (inject_Z (Math_round q))
  | other => other
  end.

Definition isNaN (x : jsnum) : bool :=
  match x with NaN => true | _ => false end.

(** [Array.prototype.sort(cmp)]: a stable sort; [cmp a b <= 0] keeps [a]
    before [b].  Insertion from the right gives the stable order.  This is
    the engine's result for a consistent comparator (one that is a total
    preorder); for an inconsistent comparator the order is the engine's
    own, and the properties that depend on the order assume consistency. *)
Fixpoint sort_insert {A : Type} (cmp : A -> A -> Z) (x : A) (l : list A) : list A :=
  match l with
  | [] => [x]
  | y :: l' => if cmp x y <=? 0 then x :: y :: l' else y :: sort_insert cmp x l'
  end.

Fixpoint sort {A : Type} (cmp : A -> A -> Z) (l : list A) : list A :=
  match l with
  | [] => []
  | x :: l' => sort_insert cmp x (sort cmp l')
  end.

(** ** Constants and types *)

Inductive Status : Type := draft | active | completed | archived.
Inductive Priority : Type := high | medium | low.
Inductive Role : Type := admin | member.

Definition STATUSES : list Status := [draft; active; completed; archived].
Definition PRIORITIES : list Priority := [high; medium; low].

Definition Status_eqb (a b : Status) : bool :=
  match a, b with
  | draft, draft | active, active | completed, completed | archived, archived => true
  | _, _ => false
  end.

Definition Priority_eqb (a b : Priority) : bool :=
  match a, b with
  | high, high | medium, medium | low, low => true
  | _, _ => false
  end.

Module User.
Record t : Type := mk {
  id : string;
  name : string;
  email : string;
  role : Role;
  createdAt : Z
}.
End User.

Module Guest.
Record t : Type := mk {
  id : string;
  name : string;
  company : option string;
  email : option string;
  bio : option string;
  socials : option string;
  notes : option string;
  photoDataUrl : option string;
  plannedQuestions : option string;
  topics : option string;
  createdAt : Z
}.
End Guest.

Record Checklist : Type := mkChecklist {
  research : bool;
  questions : bool;
  equipment : bool;
  thumbnails : bool
}.

Module Project.
Record t : Type := mk {
  id : string;
  title : string;
  series : string;
  episodeNumber : Z;
  description : option string;
  beforeNotes : option string;
  afterNotes : option string;
  status : Status;
  priority : Priority;
  tags : list string;
  scheduledRecordAt : option string;
  scheduledPublishAt : option string;
  durationEstimateMin : option Z;
  guestId : option string;
  checklist : Checklist;
  progressPct : Z;
  createdAt : Z;
  updatedAt : Z
}.

(** [{...p, progressPct: v}], [{...p, updatedAt: v}], [{...p, status: v}]. *)
Definition with_progressPct (v : Z) (p : t) : t :=
  mk (id p) (title p) (series p) (episodeNumber p) (description p)
     (beforeNotes p) (afterNotes p) (status p) (priority p) (tags p)
     (scheduledRecordAt p) (scheduledPublishAt p) (durationEstimateMin p)
     (guestId p) (checklist p) v (createdAt p) (updatedAt p).

Definition with_updatedAt (v : Z) (p : t) : t :=
  mk (id p) (title p) (series p) (episodeNumber p) (description p)
     (beforeNotes p) (afterNotes p) (status p) (priority p) (tags p)
     (scheduledRecordAt p) (scheduledPublishAt p) (durationEstimateMin p)
     (guestId p) (checklist p) (progressPct p) (createdAt p) v.

Definition with_status (v : Status) (p : t) : t :=
  mk (id p) (title p) (series p) (episodeNumber p) (description p)
     (beforeNotes p) (afterNotes p) v (priority p) (tags p)
     (scheduledRecordAt p) (scheduledPublishAt p) (durationEstimateMin p)
     (guestId p) (checklist p) (progressPct p) (createdAt p) (updatedAt p).
End Project.

Abbreviation User := User.t.
Abbreviation Guest := Guest.t.
Abbreviation Project := Project.t.

(** ** Utilities *)

(** [calcProgress]: the number of ticked boxes over four, as a rounded
    percentage. *)
Definition calcProgress (c : Checklist) : Z :=
  let done := Z.of_nat (List.length (filter (fun b : bool => b)
                 [research c; questions c; equipment c; thumbnails c])) in
  Math_round ((inject_Z done / 4) * 100).

(** ** The sequence allocator and its store *)

Module SeqMap.
Import stdpp.base stdpp.option stdpp.gmap stdpp.strings.
Local Open Scope string_scope.
Local Open Scope list_scope.
Local Open Scope Z_scope.

(** The values the allocator can meet when it reads a property of the
    sequence map: what JSON holds (numbers, strings, [null]) and what an
    object literal inherits from [Object.prototype] (functions, the
    prototype object itself); [Undefined] is an absent property. *)
Inductive value : Type :=
  | Undefined
  | Null
  | Num (n : Z)
  | Str (s : string)
  | Fn (name : string)
  | Obj.

(** A plain object used as a map: its own properties. *)
Abbreviation obj := (gmap string value).

(** The methods every plain object inherits. *)
Definition Object_prototype_methods : list string :=
  [ "constructor"; "toString"; "toLocaleString"; "valueOf"; "hasOwnProperty";
    "isPrototypeOf"; "propertyIsEnumerable"; "__defineGetter__";
    "__defineSetter__"; "__lookupGetter__"; "__lookupSetter__" ]%string.

(** A property read that finds no own property continues on
    [Object.prototype]: [constructor] is the function [Object], the other
    methods are functions of their own name, and the accessor [__proto__]
    yields the prototype object. *)
Definition Object_prototype (k : string) : value :=
  if (k =? "constructor")%string then Fn "Object"
  else if existsb (String.eqb k) Object_prototype_methods then Fn k
  else if (k =? "__proto__")%string then Obj
  else Undefined.

(** [o[k]]. *)
Definition get (o : obj) (k : string) : value :=
  match o !! k with
  | Some v => v
  | None => Object_prototype k
  end.

(** [o[k] = v] for a primitive [v]: an own data property is created or
    overwritten, except that the inherited setter [__proto__] ignores a
    primitive. *)
Definition set (o : obj) (k : string) (v : value) : obj :=
  match o !! k with
  | Some _ => <[k := v]> o
  | None => if (k =? "__proto__")%string then o else <[k := v]> o
  end.

Definition truthy (v : value) : bool :=
  match v with
  | Undefined | Null => false
  | Num n => negb (n =? 0)
  | Str s => negb (falsy s)
  | Fn _ | Obj => true
  end.

(** [a || b]. *)
Definition js_or (a b : value) : value := if truthy a then a else b.

(** [String(v)]; a built-in function prints as its native-code stub. *)
Definition ToString (v : value) : string :=
  match v with
  | Undefined => "undefined"
  | Null => "null"
  | Num n => DecimalString.NilZero.string_of_int (Z.to_int n)
  | Str s => s
  | Fn name => "function " ++ name ++ "() { [native code] }"
  | Obj => "[object Object]"
  end.

(** [a + n] for a truthy-or-zero left operand [a] and a number [n]: numeric
    addition on numbers ([null] counts as 0), string concatenation as soon
    as [a] is, or converts to, a string.  The integer sum is the sum of the
    code's doubles as long as it stays within [2^53] in absolute value; the
    properties of counters carry that bound. *)
Definition js_add (a : value) (n : Z) : value :=
  match a with
  | Num m => Num (m + n)
  | Null => Num n
  | other => Str (ToString other ++ ToString (Num n))
  end.

(** What [JSON.parse(JSON.stringify(o))] keeps of a property. *)
Definition JSON_roundtrip (v : value) : option value :=
  match v with
  | Undefined | Fn _ => None
  | other => Some other
  end.

(** [localStorage], restricted to the keys under which the program stores an
    object used as a map; an absent key also stands for unparsable text. *)
Abbreviation Storage := (gmap string (gmap string value)).

Definition LS_KEYS_seqMap : string := "pp_series_seq_map_v1".

Definition load (key : string) (fallback : obj) (ls : Storage) : obj :=
  match ls !! key with
  | Some o => o
  | None => fallback
  end.

Definition save (key : string) (o : obj) (ls : Storage) : Storage :=
  <[key := omap JSON_roundtrip o]> ls.

(** [nextEpisodeNumber(series)]: the value returned and the store left
    behind. *)
Definition nextEpisodeNumber (series : string) (ls : Storage) : value * Storage :=
  let map := load LS_KEYS_seqMap ∅ ls in
  let current := js_add (js_or (get map series) (Num 0)) 1 in
  let map := set map series current in
  (current, save LS_KEYS_seqMap map ls).

(** Successive calls, one per series of the list; every call is recorded
    with the value it returned. *)
Fixpoint calls (l : list string) (ls : Storage) : list (string * value) * Storage :=
  match l with
  | [] => ([], ls)
  | s :: l' =>
      let '(v, ls1) := nextEpisodeNumber s ls in
      let '(r, ls2) := calls l' ls1 in
      ((s, v) :: r, ls2)
  end.

(** The values returned to the calls made for [series]. *)
Definition returned (series : string) (r : list (string * value)) : list value :=
  List.map snd (List.filter (fun c => (fst c =? series)%string) r).

(** The counter of [series] stands at [k]: no entry yet for [k = 0], the
    number [k] otherwise. *)
Definition stands_at (series : string) (k : Z) (ls : Storage) : Prop :=
  load LS_KEYS_seqMap ∅ ls !! series = (if k =? 0 then None else Some (Num k)).

End SeqMap.

(** ** Dashboard aggregates *)

Definition Dashboard_active (projects : list Project) : list Project :=
  filter (fun p => negb (Status_eqb (Project.status p) archived)) projects.

Definition Dashboard_completed (projects : list Project) : list Project :=
  filter (fun p => Status_eqb (Project.status p) completed) projects.

Definition activeCount (projects : list Project) : nat :=
  List.length (Dashboard_active projects).

Definition completedCount (projects : list Project) : nat :=
  List.length (Dashboard_completed projects).

(** [Math.round(active.reduce((sum,p)=>sum+p.progressPct,0) / Math.max(1, active.length))].
    The integer sum and the exact quotient are those of the code's doubles
    for percentages, that is, for values between 0 and 100. *)
Definition avgProgress (projects : list Project) : jsnum :=
  let active := Dashboard_active projects in
  js_round (js_div (fold_left (fun sum p => sum + Project.progressPct p) active 0)
                   (Z.max 1 (Z.of_nat (List.length active)))).

(** The number shown in the "Avg Progress" tile:
    [isNaN(avgProgress) ? 0 : avgProgress]. *)
Definition avgProgress_shown (projects : list Project) : jsnum :=
  if isNaN (avgProgress projects) then Finite 0 else avgProgress projects.

(** ** The project list: filters and sort keys *)

(** A filter control: ["all"] or one value. *)
Inductive Choice (A : Type) : Type :=
  | All
  | Only (a : A).
Arguments All {A}.
Arguments Only {A} a.

Inductive SortKey : Type := by_updatedAt | by_progress | by_episode.

(** [s || ""] for an optional string. *)
Definition or_empty (s : option string) : string :=
  match s with
  | Some x => if falsy x then "" else x
  | None => ""
  end.

(** The text test of the search box on one project, [q] already in lower
    case: any of the four fields contains it. *)
Definition matchesQuery (q : string) (p : Project) : bool :=
  includes (toLowerCase (Project.title p)) q
  || includes (toLowerCase (or_empty (Project.description p))) q
  || includes (toLowerCase (join " " (Project.tags p))) q
  || includes (toLowerCase (Project.series p)) q.

Section ProjectsPage.

(** [String.prototype.localeCompare]: the collation of the host, a negative,
    zero or positive number. *)
Variable localeCompare : string -> string -> Z.

Definition cmp_updatedAt (a b : Project) : Z :=
  Project.updatedAt b - Project.updatedAt a.

Definition cmp_progress (a b : Project) : Z :=
  Project.progressPct b - Project.progressPct a.

Definition cmp_episode (a b : Project) : Z :=
  if negb (Project.series a =? Project.series b)%string
  then localeCompare (Project.series a) (Project.series b)
  else Project.episodeNumber a - Project.episodeNumber b.

Definition filtered (projects : list Project)
    (statusFilter : Choice Status) (priorityFilter : Choice Priority)
    (query : string) (sortKey : SortKey) : list Project :=
  let list := projects in
  let list := match statusFilter with
              | Only s => filter (fun p => Status_eqb (Project.status p) s) list
              | All => list
              end in
  let list := match priorityFilter with
              | Only pr => filter (fun p => Priority_eqb (Project.priority p) pr) list
              | All => list
              end in
  let list := if negb (falsy (trim query))
              then let q := toLowerCase query in filter (matchesQuery q) list
              else list in
  let list := match sortKey with by_updatedAt => sort cmp_updatedAt list | _ => list end in
  let list := match sortKey with by_progress => sort cmp_progress list | _ => list end in
  let list := match sortKey with by_episode => sort cmp_episode list | _ => list end in
  list.

End ProjectsPage.

(** ** Project mutations *)

Record ProjectsPageState : Type := mkProjectsPageState {
  pp_projects : list Project;
  pp_showForm : bool;
  pp_draft : option Project
}.

(** The updater that [saveDraft] hands to [setProjects]. *)
Definition upsert (copy : Project) (prev : list Project) : list Project :=
  if existsb (fun p => (Project.id p =? Project.id copy)%string) prev
  then map (fun p => if (Project.id p =? Project.id copy)%string then copy else p) prev
  else copy :: prev.

(** [saveDraft], with [now] the value of [Date.now()]. *)
Definition saveDraft (now : Z) (st : ProjectsPageState) : ProjectsPageState :=
  match pp_draft st with
  | None => st
  | Some d =>
      let copy := d in
      let copy := Project.with_progressPct (calcProgress (Project.checklist copy)) copy in
      let copy := Project.with_updatedAt now copy in
      mkProjectsPageState (upsert copy (pp_projects st)) false None
  end.

Inductive BulkAction : Type := complete | archive | delete.

Definition BulkAction_eqb (a b : BulkAction) : bool :=
  match a, b with
  | complete, complete | archive, archive | delete, delete => true
  | _, _ => false
  end.

Definition ids_includes (ids : list string) (i : string) : bool :=
  existsb (String.eqb i) ids.

(** [bulk(action)] on the ticked ids; [confirmed] is the answer to the
    confirmation dialog and [now] the clock, read as one instant.  The
    second component is the alert, if any. *)
Definition bulk (action : BulkAction) (ids : list string) (confirmed : bool)
    (now : Z) (prev : list Project) : list Project * option string :=
  if (List.length ids =? 0)%nat then (prev, Some "Select at least one project.")
  else if BulkAction_eqb action delete && negb confirmed then (prev, None)
  else
    (filter (fun p => negb (BulkAction_eqb action delete) || negb (ids_includes ids (Project.id p)))
       (map (fun p =>
               if negb (ids_includes ids (Project.id p)) then p
               else match action with
                    | complete => Project.with_updatedAt now (Project.with_status completed p)
                    | archive => Project.with_updatedAt now (Project.with_status archived p)
                    | delete => p
                    end) prev),
     None).

(** ** Team and guest mutations *)

Record TeamPageState : Type := mkTeamPageState {
  team_users : list User;
  team_name : string;
  team_email : string
}.

(** [TeamPage.add]; [fresh] is the identifier drawn by [uid("usr")]. *)
Definition TeamPage_add (fresh : string) (now : Z) (st : TeamPageState)
    : TeamPageState * option string :=
  let name := team_name st in
  let email := team_email st in
  let users := team_users st in
  if falsy (trim name) || falsy (trim email) then (st, None)
  else
    let exists_ := existsb (fun u => (toLowerCase (User.email u) =? toLowerCase email)%string) users in
    if exists_ then (st, Some "Email already exists.")
    else
      let u := User.mk fresh name email member now in
      (mkTeamPageState (users ++ [u]) "" "", None).

Record GuestsPageState : Type := mkGuestsPageState {
  guests : list Guest;
  g : option Guest;
  show : bool
}.

(** [GuestsPage.save]. *)
Definition GuestsPage_save (st : GuestsPageState) : GuestsPageState * option string :=
  match g st with
  | None => (st, None)
  | Some g0 =>
      if falsy (trim (Guest.name g0)) then (st, Some "Name required")
      else
        let prev := guests st in
        (mkGuestsPageState
           (if existsb (fun x => (Guest.id x =? Guest.id g0)%string) prev
            then map (fun x => if (Guest.id x =? Guest.id g0)%string then g0 else x) prev
            else g0 :: prev)
           None false,
         None)
  end.

(** ** Login *)

Record AppState : Type := mkAppState {
  users : list User;
  session_userId : option string
}.

(** [name || email.split("@")[0]] for the optional [name]. *)
Definition loginName (name : option string) (email : string) : string :=
  match name with
  | Some n => if falsy n then hd "" (split "@" email) else n
  | None => hd "" (split "@" email)
  end.

(** [handleLogin(email, name)]; [fresh] is the identifier drawn by
    [uid("usr")] and [now] the clock.  The page reload that follows is not
    part of the state. *)
Definition handleLogin (fresh : string) (now : Z) (email : string)
    (name : option string) (st : AppState) : AppState * option string :=
  if falsy (trim email) then (st, Some "Email required")
  else
    match find (fun u => (toLowerCase (User.email u) =? toLowerCase email)%string) (users st) with
    | Some u => (mkAppState (users st) (Some (User.id u)), None)
    | None =>
        let u := User.mk fresh (loginName name email) email member now in
        (mkAppState (users st ++ [u]) (Some (User.id u)), None)
    end.

(** [openEdit(p)]: the form opens on a copy of [p]. *)
Definition openEdit (p : Project) (st : ProjectsPageState) : ProjectsPageState :=
  mkProjectsPageState (pp_projects st) true (Some p).

(** ** Vocabulary of the specification *)

(** The number of ticked boxes of a checklist. *)
Definition trueCount (c : Checklist) : Z :=
  Z.b2z (research c) + Z.b2z (questions c) + Z.b2z (equipment c) + Z.b2z (thumbnails c).

Definition Status_eq_dec (a b : Status) : {a = b} + {a <> b}.
Proof. decide equality. Defined.

(** The sum and the mean of a list of integers. *)
Definition total (l : list Z) : Z := fold_right Z.add 0 l.

Definition mean (l : list Z) : Q :=
  inject_Z (total l) / inject_Z (Z.of_nat (List.length l)).

(** A string made of white space only (the empty string included). *)
Definition blank (s : string) : Prop :=
  Forall (fun c => isWhiteSpace c = true) (list_ascii_of_string s).

(** [needle] occurs in [hay]. *)
Definition substring_of (needle hay : string) : Prop :=
  exists pre post : string, hay = (pre ++ needle ++ post)%string.

(** The part of a string before its first ['@'] (all of it when there is
    none). *)
Fixpoint beforeAt (s : string) : string :=
  match s with
  | EmptyString => ""
  | String c s' => if Ascii.eqb c "@" then "" else String c (beforeAt s')
  end.

(** The record [saveDraft] stores for the draft [d] at time [now]. *)
Definition saved (now : Z) (d : Project) : Project :=
  Project.with_updatedAt now
    (Project.with_progressPct (calcProgress (Project.checklist d)) d).

(** The text filter as the specification words it: one match against the
    concatenation of title, description, space-joined tags and series. *)
Definition concatFields (p : Project) : string :=
  (Project.title p ++ or_empty (Project.description p)
   ++ join " " (Project.tags p) ++ Project.series p)%string.

Definition matchesConcat (query : string) (p : Project) : bool :=
  includes (toLowerCase (concatFields p)) (toLowerCase query).


(** A concrete collation, for examples: code units compared left to right. *)
Definition codeUnitCompare (a b : string) : Z :=
  match String.compare a b with
  | Lt => -1
  | Eq => 0
  | Gt => 1
  end.

(** A project that only sets the fields the examples look at. *)
Definition sample (i t s : string) (ep : Z) (st : Status) (pr : Priority)
    (tg : list string) (pct : Z) : Project :=
  Project.mk i t s ep (Some "") (Some "") (Some "") st pr tg None None None None
    (mkChecklist false false false false) pct 0 0.

(** What the filter controls and the search box let through. *)
Definition status_ok (statusFilter : Choice Status) (p : Project) : bool :=
  match statusFilter with
  | All => true
  | Only s => Status_eqb (Project.status p) s
  end.

Definition priority_ok (priorityFilter : Choice Priority) (p : Project) : bool :=
  match priorityFilter with
  | All => true
  | Only pr => Priority_eqb (Project.priority p) pr
  end.

Definition query_ok (query : string) (p : Project) : bool :=
  if falsy (trim query) then true else matchesQuery (toLowerCase query) p.

Definition kept (statusFilter : Choice Status) (priorityFilter : Choice Priority)
    (query : string) (p : Project) : bool :=
  status_ok statusFilter p && priority_ok priorityFilter p && query_ok query p.

(** [n] consecutive integers from [start]. *)
Fixpoint countUp (start : Z) (n : nat) : list Z :=
  match n with
  | O => []
  | S n' => start :: countUp (start + 1) n'
  end.

(** ** The rest of the project page *)

(** [remove(id)]; [confirmed] is the answer to the confirmation dialog. *)
Definition ProjectsPage_remove (confirmed : bool) (id : string)
    (prev : list Project) : list Project :=
  if confirmed then filter (fun p => negb (Project.id p =? id)%string) prev else prev.

(** [Array.from(new Set(xs))]: the distinct elements, in the order of their
    first occurrence. *)
Definition Set_add (seen : list string) (x : string) : list string :=
  if existsb (String.eqb x) seen then seen else seen ++ [x].

Definition Array_from_Set (xs : list string) : list string :=
  fold_left Set_add xs [].

(** [allSeries]: the distinct series names; [sort()] without a comparator
    orders strings by code units. *)
Definition allSeries (projects : list Project) : list string :=
  sort codeUnitCompare (Array_from_Set (map Project.series projects)).

(** [allSeries[0] || "Main"]. *)
Definition defaultSeries (projects : list Project) : string :=
  match allSeries projects with
  | s :: _ => if falsy s then "Main" else s
  | [] => "Main"
  end.

(** [{...p, checklist: v}] and [{...p, tags: v}]. *)
Definition with_checklist (v : Checklist) (p : Project) : Project :=
  Project.mk (Project.id p) (Project.title p) (Project.series p)
    (Project.episodeNumber p) (Project.description p) (Project.beforeNotes p)
    (Project.afterNotes p) (Project.status p) (Project.priority p) (Project.tags p)
    (Project.scheduledRecordAt p) (Project.scheduledPublishAt p)
    (Project.durationEstimateMin p) (Project.guestId p) v
    (Project.progressPct p) (Project.createdAt p) (Project.updatedAt p).

Definition with_tags (v : list string) (p : Project) : Project :=
  Project.mk (Project.id p) (Project.title p) (Project.series p)
    (Project.episodeNumber p) (Project.description p) (Project.beforeNotes p)
    (Project.afterNotes p) (Project.status p) (Project.priority p) v
    (Project.scheduledRecordAt p) (Project.scheduledPublishAt p)
    (Project.durationEstimateMin p) (Project.guestId p) (Project.checklist p)
    (Project.progressPct p) (Project.createdAt p) (Project.updatedAt p).

(** A [Partial<Checklist>]: the keys present and their values. *)
Record ChecklistPatch : Type := mkChecklistPatch {
  patch_research : option bool;
  patch_questions : option bool;
  patch_equipment : option bool;
  patch_thumbnails : option bool
}.

(** One key of [{...old, ...patch}]. *)
Definition spread (old : bool) (patch : option bool) : bool :=
  match patch with
  | Some b => b
  | None => old
  end.

(** [ProjectForm.setChecklist(patch)]: the draft with the patched checklist. *)
Definition setChecklist (patch : ChecklistPatch) (draft : Project) : Project :=
  let c := Project.checklist draft in
  with_checklist
    (mkChecklist (spread (research c) (patch_research patch))
                 (spread (questions c) (patch_questions patch))
                 (spread (equipment c) (patch_equipment patch))
                 (spread (thumbnails c) (patch_thumbnails patch)))
    draft.

(** The "Add" button of the tag box: the draft and the text left in the
    box. *)
Definition addTags (tagInput : string) (draft : Project) : Project * string :=
  if falsy (trim tagInput) then (draft, tagInput)
  else (with_tags (Project.tags draft
                   ++ filter (fun s => negb (falsy s)) (map trim (split "," tagInput)))
                  draft,
        "").

(** [xs.filter((_, i) => f(i))], counting positions from [i]. *)
Fixpoint filter_index {A : Type} (f : nat -> bool) (i : nat) (xs : list A) : list A :=
  match xs with
  | [] => []
  | x :: xs' => if f i then x :: filter_index f (S i) xs' else filter_index f (S i) xs'
  end.

(** The cross next to the tag at position [idx]. *)
Definition removeTag (idx : nat) (draft : Project) : Project :=
  with_tags (filter_index (fun i => negb (i =? idx)%nat) 0 (Project.tags draft)) draft.

(** The comparator behind a sort key. *)
Definition cmp_of (localeCompare : string -> string -> Z) (key : SortKey)
    : Project -> Project -> Z :=
  match key with
  | by_updatedAt => cmp_updatedAt
  | by_progress => cmp_progress
  | by_episode => cmp_episode localeCompare
  end.

(** ** Upcoming sessions *)

(** Truthiness of an optional string: present and not empty. *)
Definition truthy_opt (s : option string) : bool := negb (falsy (or_empty s)).

Definition cmp_recordAt (localeCompare : string -> string -> Z) (a b : Project) : Z :=
  localeCompare (or_empty (Project.scheduledRecordAt a))
                (or_empty (Project.scheduledRecordAt b)).

(** The sessions a scheduled recording is waiting for, before the cut. *)
Definition Dashboard_scheduled (projects : list Project) : list Project :=
  filter (fun p => truthy_opt (Project.scheduledRecordAt p))
    (filter (fun p => negb (Status_eqb (Project.status p) archived)) projects).

(** [Dashboard.next]. *)
Definition Dashboard_next (localeCompare : string -> string -> Z)
    (projects : list Project) : list Project :=
  firstn 5 (sort (cmp_recordAt localeCompare) (Dashboard_scheduled projects)).

(** ** Calendar export *)

Inductive IcsKind : Type := kind_record | kind_publish.

Definition IcsKind_name (kind : IcsKind) : string :=
  match kind with
  | kind_record => "record"
  | kind_publish => "publish"
  end.

(** [s.replace(/[-:]/g, "")]. *)
Fixpoint strip_dash_colon (s : string) : string :=
  match s with
  | EmptyString => EmptyString
  | String c s' =>
      if (Ascii.eqb c "-" || Ascii.eqb c ":")%bool then strip_dash_colon s'
      else String c (strip_dash_colon s')
  end.

(** [s.replace(a, b)] for one-character strings: the first [a] becomes [b]. *)
Fixpoint replace_first (a b : ascii) (s : string) : string :=
  match s with
  | EmptyString => EmptyString
  | String c s' => if Ascii.eqb c a then String b s' else String c (replace_first a b s')
  end.

Definition ics_start (dt : string) : string :=
  replace_first "T" "T" (strip_dash_colon dt).

Definition ics_uid (p : Project) (kind : IcsKind) : string :=
  ("studiocast-" ++ Project.id p ++ "-" ++ IcsKind_name kind)%string.

(** The decimal text of an integer, as a template literal prints it (below
    [1e21], where the exponent form begins). *)
Definition number_text (n : Z) : string :=
  DecimalString.NilZero.string_of_int (Z.to_int n).

Definition LF : string := String (ascii_of_nat 10) "".

(** [IcsButton.makeIcs]: nothing without a date, else the name and the text
    of the file offered for download. *)
Definition makeIcs (p : Project) (kind : IcsKind) : option (string * string) :=
  let dt := match kind with
            | kind_record => Project.scheduledRecordAt p
            | kind_publish => Project.scheduledPublishAt p
            end in
  if negb (truthy_opt dt) then None
  else
    let start := ics_start (or_empty dt) in
    let uidStr := ics_uid p kind in
    let summary := (Project.series p ++ " Ep " ++ number_text (Project.episodeNumber p)
                    ++ ": " ++ Project.title p ++ " (" ++ IcsKind_name kind ++ ")")%string in
    let body := join LF
      [ "BEGIN:VCALENDAR";
        "VERSION:2.0";
        "PRODID:-//StudioCast//EN";
        "BEGIN:VEVENT";
        ("UID:" ++ uidStr)%string;
        ("DTSTAMP:" ++ start ++ "Z")%string;
        ("DTSTART:" ++ start ++ "Z")%string;
        ("SUMMARY:" ++ summary)%string;
        "END:VEVENT";
        "END:VCALENDAR" ] in
    Some ((uidStr ++ ".ics")%string, body).

(** ** Team, guests and session *)

(** [TeamPage.del] and [TeamPage.promote]. *)
Definition TeamPage_del (confirmed : bool) (id : string) (prev : list User) : list User :=
  if confirmed then filter (fun u => negb (User.id u =? id)%string) prev else prev.

Definition TeamPage_promote (id : string) (role : Role) (prev : list User) : list User :=
  map (fun u => if (User.id u =? id)%string
                then User.mk (User.id u) (User.name u) (User.email u) role (User.createdAt u)
                else u) prev.

(** [GuestsPage.del]. *)
Definition GuestsPage_del (confirmed : bool) (id : string) (prev : list Guest) : list Guest :=
  if confirmed then filter (fun x => negb (Guest.id x =? id)%string) prev else prev.

(** [currentUser]: the first user under the id the session holds. *)
Definition currentUser (st : AppState) : option User :=
  match session_userId st with
  | Some i => find (fun u => (User.id u =? i)%string) (users st)
  | None => None
  end.

(** [handleLogout]. *)
Definition handleLogout (st : AppState) : AppState :=
  mkAppState (users st) None.

(** [ensureSeedAdmin] on the stored users ([None]: nothing stored, or text
    that does not parse); [fresh] and [now] as in [handleLogin]. *)
Definition ensureSeedAdmin (fresh : string) (now : Z)
    (stored : option (list User)) : option (list User) :=
  let users := match stored with Some us => us | None => [] end in
  if (List.length users =? 0)%nat
  then Some [User.mk fresh "Admin" "admin@example.com" admin now]
  else stored.

(** The state [StudioCastPortal] starts from: the stored users and the
    stored session. *)
Definition initialState (stored : option (list User)) (session : option string) : AppState :=
  mkAppState (match stored with Some us => us | None => [] end) session.

(** Emails are told apart up to case. *)
Definition emailKey (u : User) : string := toLowerCase (User.email u).

(** Every project carries the percentage of its checklist. *)
Definition consistent (ps : list Project) : Prop :=
  Forall (fun p => Project.progressPct p = calcProgress (Project.checklist p)) ps.

(** Two projects tie under a sort key. *)
Definition same_key (key : SortKey) (a b : Project) : bool :=
  match key with
  | by_updatedAt => Project.updatedAt b =? Project.updatedAt a
  | by_progress => Project.progressPct b =? Project.progressPct a
  | by_episode => (Project.series b =? Project.series a)%string
                  && (Project.episodeNumber b =? Project.episodeNumber a)
  end.

(** The status a bulk action sets. *)
Definition bulk_target (action : BulkAction) : option Status :=
  match action with
  | complete => Some completed
  | archive => Some archived
  | delete => None
  end.

(** A string without dash and colon. *)
Definition plain (s : string) : Prop :=
  ~ In "-"%char (list_ascii_of_string s) /\ ~ In ":"%char (list_ascii_of_string s).

(** The largest integer up to which the doubles of the code count one by
    one. *)
Definition two53 : Z := 2 ^ 53.

(** A collation that is a strict total order on strings, told by the sign of
    its result. *)
Definition strict_total_collation (lc : string -> string -> Z) : Prop :=
  (forall a b, lc a b < 0 <-> 0 < lc b a)
  /\ (forall a b, lc a b = 0 -> a = b)
  /\ (forall a b c, lc a b < 0 -> lc b c < 0 -> lc a c < 0).



(** ** The self-tests *)

Module SmokeTests.
Import stdpp.base stdpp.option stdpp.gmap stdpp.strings.
Import SeqMap.
Local Open Scope string_scope.
Local Open Scope list_scope.
Local Open Scope Z_scope.

(** [a === b] on the values the tests compare. *)
Definition strict_eq (a b : value) : bool :=
  match a, b with
  | Undefined, Undefined | Null, Null | Obj, Obj => true
  | Num x, Num y => x =? y
  | Str x, Str y => (x =? y)%string
  | Fn x, Fn y => (x =? y)%string
  | _, _ => false
  end.

(** The two projects of the search test. *)
Definition smoke_list (now : Z) : list Project :=
  [ Project.mk "a" "Alpha" "Main" 1 (Some "") (Some "") (Some "") draft high ["news"]
      None None None None (mkChecklist true false false false) 25 now now;
    Project.mk "b" "Beta" "Main" 2 (Some "") (Some "") (Some "") active medium ["tech"]
      None None None None (mkChecklist true true false false) 50 now now ].

(** [key in o] for an optional field of a record. *)
Definition has_key {A : Type} (field : option A) : bool :=
  match field with Some _ => true | None => false end.

(** [runSmokeTests()]: the named results and the store left behind. *)
Definition runSmokeTests (now : Z) (ls : Storage) : list (string * bool) * Storage :=
  let r1 := ("progress 0%", calcProgress (mkChecklist false false false false) =? 0) in
  let r2 := ("progress 50%", calcProgress (mkChecklist true false true false) =? 50) in
  let r3 := ("progress 100%", calcProgress (mkChecklist true true true true) =? 100) in
  let backup := load LS_KEYS_seqMap ∅ ls in
  let ls := save LS_KEYS_seqMap ∅ ls in
  let '(a1, ls) := nextEpisodeNumber "Main" ls in
  let '(a2, ls) := nextEpisodeNumber "Main" ls in
  let '(b1, ls) := nextEpisodeNumber "Guest Series" ls in
  let r4 := ("series A increments", strict_eq a2 (js_add a1 1)) in
  let r5 := ("series B starts at 1", strict_eq b1 (Num 1)) in
  let ls := save LS_KEYS_seqMap backup ls in
  let list := smoke_list now in
  let filtered := List.filter (fun p => existsb (String.eqb "tech") (Project.tags p)) list in
  let r6 := ("tag filter finds tech",
             match filtered with
             | [p] => (Project.id p =? "b")%string
             | _ => false
             end) in
  let r7 := ("project has before/after",
             match list with
             | p :: _ => has_key (Project.beforeNotes p) && has_key (Project.afterNotes p)
             | [] => false
             end) in
  ([r1; r2; r3; r4; r5; r6; r7], ls).

End SmokeTests.

(** ** The single counter of the earlier revision *)

Module Legacy.
Import SeqMap.
Local Open Scope Z_scope.

(** The text stored under [LS_KEYS.seq], parsed; [None] when nothing is
    stored or the text does not parse. *)
Definition load (stored : option value) (fallback : value) : value :=
  match stored with
  | Some v => v
  | None => fallback
  end.

(** [nextEpisodeNumber()]: one counter for all projects. *)
Definition nextEpisodeNumber (stored : option value) : value * option value :=
  let seq := js_add (load stored (Num 0)) 1 in
  (seq, JSON_roundtrip seq).

(** [n] successive calls and the values they return. *)
Fixpoint calls (n : nat) (stored : option value) : list value * option value :=
  match n with
  | O => ([], stored)
  | S n' =>
      let '(v, stored1) := nextEpisodeNumber stored in
      let '(r, stored2) := calls n' stored1 in
      (v :: r, stored2)
  end.

End Legacy.

(* ================================================================== *)
(** * Part II: properties *)
(* ================================================================== *)

(** ** The progress calculator *)

Lemma trueCount_range (c : Checklist) : 0 <= trueCount c <= 4.
Proof. destruct c as [[] [] [] []]; vm_compute; split; discriminate. Qed.

Lemma calcProgress_scenario_C :
  calcProgress (mkChecklist true false false false) = 25.
Proof. reflexivity. Qed.

Lemma calcProgress_round (c : Checklist) :
  calcProgress c = Math_round (100 * inject_Z (trueCount c) / 4).
Proof. destruct c as [[] [] [] []]; reflexivity. Qed.

Lemma calcProgress_quarters (c : Checklist) : calcProgress c = 25 * trueCount c.
Proof. destruct c as [[] [] [] []]; reflexivity. Qed.

(** C2. For every checklist, [calcProgress] is [round(100 * trueCount / 4)],
    which is [25 * trueCount], hence one of 0, 25, 50, 75, 100.  The function
    is total: it returns on every checklist. *)
Theorem calcProgress_spec (c : Checklist) :
  calcProgress c = Math_round (100 * inject_Z (trueCount c) / 4)
  /\ calcProgress c = 25 * trueCount c
  /\ In (calcProgress c) [0; 25; 50; 75; 100].
Proof.
  split; [apply calcProgress_round|]. split; [apply calcProgress_quarters|].
  rewrite calcProgress_quarters.
  pose proof (trueCount_range c) as Hr.
  assert (H : trueCount c = 0 \/ trueCount c = 1 \/ trueCount c = 2
              \/ trueCount c = 3 \/ trueCount c = 4) by lia.
  simpl. lia.
Qed.

(** ** Dashboard aggregates *)

Lemma Status_eqb_eq (a b : Status) : Status_eqb a b = true <-> a = b.
Proof. destruct a, b; simpl; split; congruence. Qed.

Lemma Priority_eqb_eq (a b : Priority) : Priority_eqb a b = true <-> a = b.
Proof. destruct a, b; simpl; split; congruence. Qed.

Lemma length_filter_count_occ (s : Status) (ps : list Project) :
  List.length (filter (fun p => Status_eqb (Project.status p) s) ps)
  = count_occ Status_eq_dec (map Project.status ps) s.
Proof.
  induction ps as [|p ps IH]; simpl; [reflexivity|].
  destruct (Status_eq_dec (Project.status p) s) as [E|N].
  - apply Status_eqb_eq in E. rewrite E. simpl. now rewrite IH.
  - destruct (Status_eqb (Project.status p) s) eqn:E.
    + apply Status_eqb_eq in E. contradiction.
    + exact IH.
Qed.

Lemma length_filter_negb {A : Type} (f : A -> bool) (l : list A) :
  (List.length (filter (fun x => negb (f x)) l) + List.length (filter f l)
   = List.length l)%nat.
Proof.
  induction l as [|x l IH]; simpl; [reflexivity|].
  destruct (f x); simpl; lia.
Qed.

(** C6. [activeCount] counts the projects whose status is not [archived]
    (all of them less the archived ones) and [completedCount] those whose
    status is [completed]; on one project of each status they are 3 and 1. *)
Theorem dashboard_counts :
  (forall ps : list Project,
      activeCount ps
      = (List.length ps - count_occ Status_eq_dec (map Project.status ps) archived)%nat
      /\ completedCount ps = count_occ Status_eq_dec (map Project.status ps) completed)
  /\ (forall p : Project,
        let ps := map (fun s => Project.with_status s p) [draft; active; completed; archived] in
        activeCount ps = 3%nat /\ completedCount ps = 1%nat).
Proof.
  split.
  - intros ps. unfold activeCount, completedCount, Dashboard_active, Dashboard_completed.
    rewrite <- !length_filter_count_occ.
    pose proof (length_filter_negb (fun p => Status_eqb (Project.status p) archived) ps) as H.
    cbv beta in H. split; [lia | reflexivity].
  - intros p. split; reflexivity.
Qed.

Lemma fold_left_progress (ps : list Project) (acc : Z) :
  fold_left (fun sum p => sum + Project.progressPct p) ps acc
  = acc + total (map Project.progressPct ps).
Proof.
  revert acc. induction ps as [|p ps IH]; intros acc; simpl.
  - unfold total. simpl. lia.
  - rewrite IH. unfold total. simpl. lia.
Qed.

Lemma Dashboard_active_nil (ps : list Project) :
  Dashboard_active ps = [] <-> (forall p, In p ps -> Project.status p = archived).
Proof.
  unfold Dashboard_active. split.
  - intros H p Hp.
    destruct (Status_eqb (Project.status p) archived) eqn:E.
    + now apply Status_eqb_eq.
    + assert (Hin : In p (filter (fun p => negb (Status_eqb (Project.status p) archived)) ps)).
      { apply filter_In. split; [exact Hp | now rewrite E]. }
      rewrite H in Hin. destruct Hin.
  - intros H. induction ps as [|p ps IH]; simpl; [reflexivity|].
    rewrite (proj2 (Status_eqb_eq _ _) (H p (or_introl eq_refl))). simpl.
    apply IH. intros q Hq. apply H. now right.
Qed.

(** C7. For percentages, that is, when every project that is not archived
    has a [progressPct] between 0 and 100: with at least one project that is
    not archived, [avgProgress] is the rounded mean of their [progressPct];
    with none (an empty collection, or only archived projects) it is exactly
    0; it is never [NaN], the divisor being [Math.max(1, active.length)]. *)
Theorem avgProgress_spec (ps : list Project) :
  (forall p, In p ps -> Project.status p <> archived ->
     0 <= Project.progressPct p <= 100) ->
  (Dashboard_active ps <> [] ->
     avgProgress ps
     = Finite (inject_Z (Math_round (mean (map Project.progressPct (Dashboard_active ps))))))
  /\ ((forall p, In p ps -> Project.status p = archived) -> avgProgress ps = Finite 0)
  /\ avgProgress ps <> NaN
  /\ avgProgress_shown ps = avgProgress ps.
Proof.
  intros _.
  assert (Hfin : exists q, avgProgress ps = Finite q).
  { unfold avgProgress, js_div.
    destruct (Z.max 1 (Z.of_nat (List.length (Dashboard_active ps))) =? 0) eqn:E.
    - apply Z.eqb_eq in E. lia.
    - simpl. eauto. }
  repeat split.
  - intros Hne. unfold avgProgress, js_div, mean.
    assert (Hlen : Z.max 1 (Z.of_nat (List.length (Dashboard_active ps)))
                   = Z.of_nat (List.length (map Project.progressPct (Dashboard_active ps)))).
    { rewrite length_map. destruct (Dashboard_active ps); [congruence | simpl List.length; lia]. }
    rewrite Hlen, fold_left_progress, Z.add_0_l.
    destruct (Z.of_nat _ =? 0) eqn:E.
    + apply Z.eqb_eq in E. rewrite <- Hlen in E. lia.
    + reflexivity.
  - intros Harch. apply Dashboard_active_nil in Harch.
    unfold avgProgress. rewrite Harch. reflexivity.
  - destruct Hfin as [q Hq]. rewrite Hq. discriminate.
  - destruct Hfin as [q Hq]. unfold avgProgress_shown. rewrite Hq. reflexivity.
Qed.

Lemma avgProgress_spec_witness :
  let ps := [sample "a" "A" "Main" 1 active high [] 25;
             sample "b" "B" "Main" 2 draft low [] 50;
             sample "c" "C" "Main" 3 archived low [] 100] in
  avgProgress ps = Finite (inject_Z 38)
  /\ avgProgress [sample "c" "C" "Main" 3 archived low [] 100] = Finite 0.
Proof.
  intros ps. split.
  - assert (Hb : forall p, In p ps -> Project.status p <> archived ->
                   0 <= Project.progressPct p <= 100).
    { intros p [<- | [<- | [<- | []]]] _; simpl; lia. }
    refine (eq_trans (proj1 (avgProgress_spec ps Hb) _) _); [discriminate | reflexivity].
  - assert (Hb : forall p, In p [sample "c" "C" "Main" 3 archived low [] 100] ->
                   Project.status p <> archived -> 0 <= Project.progressPct p <= 100).
    { intros p [<- | []] _; simpl; lia. }
    apply (proj1 (proj2 (avgProgress_spec _ Hb))).
    intros p [<- | []]. reflexivity.
Defined.

(** ** Saving a project *)

Lemma saved_id (now : Z) (d : Project) : Project.id (saved now d) = Project.id d.
Proof. reflexivity. Qed.

Lemma saved_checklist (now : Z) (d : Project) :
  Project.checklist (saved now d) = Project.checklist d.
Proof. reflexivity. Qed.

Lemma saveDraft_projects (now : Z) (st : ProjectsPageState) (d : Project) :
  pp_draft st = Some d ->
  pp_projects (saveDraft now st) = upsert (saved now d) (pp_projects st).
Proof. intros H. unfold saveDraft. rewrite H. reflexivity. Qed.

Lemma existsb_id_false (i : string) (l : list Project) :
  existsb (fun p => (Project.id p =? i)%string) l = false
  <-> (forall q, In q l -> Project.id q <> i).
Proof.
  split.
  - intros H q Hq E.
    assert (existsb (fun p => (Project.id p =? i)%string) l = true) as Ht.
    { apply existsb_exists. exists q. split; [exact Hq | now apply String.eqb_eq]. }
    congruence.
  - intros H. destruct (existsb _ l) eqn:E; [|reflexivity].
    apply existsb_exists in E. destruct E as [q [Hq E]].
    apply String.eqb_eq in E. now destruct (H q Hq).
Qed.

Lemma map_replace_other (copy : Project) (l : list Project) :
  (forall q, In q l -> Project.id q <> Project.id copy) ->
  map (fun p => if (Project.id p =? Project.id copy)%string then copy else p) l = l.
Proof.
  induction l as [|q l IH]; intros H; simpl; [reflexivity|].
  destruct (String.eqb_spec (Project.id q) (Project.id copy)) as [E|N].
  - destruct (H q (or_introl eq_refl) E).
  - f_equal. apply IH. intros r Hr. apply H. now right.
Qed.

Lemma upsert_In (copy : Project) (prev : list Project) :
  In copy (upsert copy prev)
  /\ (forall p, In p (upsert copy prev) -> Project.id p = Project.id copy -> p = copy).
Proof.
  unfold upsert.
  destruct (existsb _ prev) eqn:E.
  - split.
    + apply existsb_exists in E. destruct E as [q [Hq E]].
      apply in_map_iff. exists q. rewrite E. auto.
    + intros p Hp Hid. apply in_map_iff in Hp. destruct Hp as [q [Hq _]].
      destruct (String.eqb_spec (Project.id q) (Project.id copy)); congruence.
  - split; [now left|].
    intros p [Hp | Hp] Hid; [now symmetry|].
    pose proof (proj1 (existsb_id_false _ _) E p Hp). contradiction.
Qed.

(** C3. After [saveDraft] the saved record is in the collection, is the only
    record under its id, has
    [progressPct = round(100 * trueCount(checklist) / 4)] and has [updatedAt]
    equal to the time of the save; a second save of a draft with the same id
    and the same checklist leaves the same [progressPct]. *)
Theorem saveDraft_progress_invariant (now : Z) (st : ProjectsPageState) (d : Project) :
  pp_draft st = Some d ->
  let st' := saveDraft now st in
  (exists p, In p (pp_projects st') /\ Project.id p = Project.id d)
  /\ (forall p, In p (pp_projects st') -> Project.id p = Project.id d ->
        Project.progressPct p
        = Math_round (100 * inject_Z (trueCount (Project.checklist p)) / 4)
        /\ Project.updatedAt p = now
        /\ Project.checklist p = Project.checklist d)
  /\ (forall (now2 : Z) (d2 : Project),
        Project.id d2 = Project.id d ->
        Project.checklist d2 = Project.checklist d ->
        forall p p2,
          In p (pp_projects st') -> Project.id p = Project.id d ->
          In p2 (pp_projects (saveDraft now2 (openEdit d2 st'))) ->
          Project.id p2 = Project.id d ->
          Project.progressPct p2 = Project.progressPct p).
Proof.
  intros Hd st'.
  assert (Hst' : pp_projects st' = upsert (saved now d) (pp_projects st))
    by now apply saveDraft_projects.
  destruct (upsert_In (saved now d) (pp_projects st)) as [Hin Huniq].
  assert (Hsaved : forall p, In p (pp_projects st') -> Project.id p = Project.id d ->
                             p = saved now d).
  { intros p Hp Hid. rewrite Hst' in Hp. apply Huniq; [exact Hp | exact Hid]. }
  split; [|split].
  - exists (saved now d). rewrite Hst'. split; [exact Hin | reflexivity].
  - intros p Hp Hid. rewrite (Hsaved p Hp Hid). simpl.
    repeat split. apply calcProgress_round.
  - intros now2 d2 Hid2 Hc2 p p2 Hp Hid Hp2 Hidp2.
    rewrite (Hsaved p Hp Hid).
    rewrite (saveDraft_projects now2 (openEdit d2 st') d2 eq_refl) in Hp2.
    apply (proj2 (upsert_In _ _)) in Hp2; [|rewrite saved_id; congruence].
    rewrite Hp2. simpl. now rewrite Hc2.
Qed.

Lemma saveDraft_progress_invariant_witness :
  let d := Project.mk "p1" "Pilot" "Main" 1 None None None draft medium ["news"]
             None None None None (mkChecklist true true false false) 0 10 10 in
  let st := mkProjectsPageState [sample "p0" "Old" "Main" 0 active low [] 0] true (Some d) in
  exists p, In p (pp_projects (saveDraft 20 st)) /\ Project.id p = "p1".
Proof.
  intros d st. exact (proj1 (saveDraft_progress_invariant 20 st d eq_refl)).
Defined.

(** C10. [saveDraft] is an upsert on the project id: when exactly one
    project carries the id of the draft it is replaced where it stands and
    the projects around it are kept as they are and in order; when none
    carries it the saved record is put in front of the unchanged collection.
    In every case a position of the old collection keeps its record unless
    that record carries the id. *)
Theorem saveDraft_upsert (now : Z) (st : ProjectsPageState) (d : Project) :
  pp_draft st = Some d ->
  (forall l1 p l2,
      pp_projects st = l1 ++ p :: l2 ->
      Project.id p = Project.id d ->
      (forall q, In q (l1 ++ l2) -> Project.id q <> Project.id d) ->
      pp_projects (saveDraft now st) = l1 ++ saved now d :: l2)
  /\ ((forall q, In q (pp_projects st) -> Project.id q <> Project.id d) ->
      pp_projects (saveDraft now st) = saved now d :: pp_projects st)
  /\ ((exists q, In q (pp_projects st) /\ Project.id q = Project.id d) ->
      List.length (pp_projects (saveDraft now st)) = List.length (pp_projects st)
      /\ forall i q, nth_error (pp_projects st) i = Some q ->
           nth_error (pp_projects (saveDraft now st)) i
           = Some (if (Project.id q =? Project.id d)%string then saved now d else q)).
Proof.
  intros Hd. rewrite (saveDraft_projects now st d Hd). unfold upsert.
  rewrite saved_id. split; [|split].
  - intros l1 p l2 Hprev Hid Hothers.
    assert (E : existsb (fun p0 => (Project.id p0 =? Project.id d)%string) (pp_projects st) = true).
    { apply existsb_exists. exists p. split.
      - rewrite Hprev. apply in_or_app. right. now left.
      - now apply String.eqb_eq. }
    rewrite E, Hprev, map_app. simpl.
    rewrite (proj2 (String.eqb_eq _ _) Hid).
    rewrite <- (saved_id now d).
    rewrite !map_replace_other.
    + reflexivity.
    + intros q Hq. rewrite saved_id. apply Hothers. apply in_or_app. now right.
    + intros q Hq. rewrite saved_id. apply Hothers. apply in_or_app. now left.
  - intros Hnone. apply existsb_id_false in Hnone. now rewrite Hnone.
  - intros [q0 [Hq0 Hid0]].
    assert (E : existsb (fun p0 => (Project.id p0 =? Project.id d)%string) (pp_projects st) = true).
    { apply existsb_exists. exists q0. split; [exact Hq0 | now apply String.eqb_eq]. }
    rewrite E. split; [apply length_map|].
    intros i q Hq. rewrite nth_error_map, Hq. reflexivity.
Qed.

Lemma saveDraft_upsert_witness :
  let a := sample "a" "Alpha" "Main" 1 draft high ["news"] 25 in
  let b := sample "b" "Beta" "Main" 2 active medium ["tech"] 50 in
  let c := sample "c" "Gamma" "Main" 3 active low [] 0 in
  let d := Project.mk "b" "Beta 2" "Main" 2 None None None completed medium ["tech"]
             None None None None (mkChecklist true true true true) 50 0 0 in
  pp_projects (saveDraft 7 (mkProjectsPageState [a; b; c] true (Some d)))
  = [a] ++ saved 7 d :: [c].
Proof.
  intros a b c d.
  apply (proj1 (saveDraft_upsert 7 (mkProjectsPageState [a; b; c] true (Some d)) d eq_refl)
           [a] b [c]).
  - reflexivity.
  - reflexivity.
  - intros q [<- | [<- | []]]; discriminate.
Defined.

(** The bulk actions leave the checklist and its percentage alone. *)
Lemma bulk_keeps_progress (action : BulkAction) (ids : list string)
    (confirmed : bool) (now : Z) (prev : list Project) (p : Project) :
  In p (fst (bulk action ids confirmed now prev)) ->
  exists q, In q prev
    /\ Project.id p = Project.id q
    /\ Project.checklist p = Project.checklist q
    /\ Project.progressPct p = Project.progressPct q.
Proof.
  unfold bulk.
  destruct (List.length ids =? 0)%nat; [intros H; exists p; auto|].
  destruct (BulkAction_eqb action delete && negb confirmed); [intros H; exists p; auto|].
  simpl. intros H. apply filter_In in H. destruct H as [H _].
  apply in_map_iff in H. destruct H as [q [Hq Hin]].
  exists q. split; [exact Hin|].
  destruct (negb (ids_includes ids (Project.id q))); [subst; auto|].
  destruct action; subst; auto.
Qed.

(** ** Validation of required fields *)

Lemma blank_cons (c : ascii) (s : string) :
  blank (String c s) <-> isWhiteSpace c = true /\ blank s.
Proof.
  unfold blank. simpl. split.
  - intros H. inversion H; subst. auto.
  - intros [H1 H2]. now constructor.
Qed.

Lemma trimEnd_empty (s : string) : trimEnd s = "" <-> blank s.
Proof.
  induction s as [|c s IH]; simpl.
  - split; [intros _; constructor | reflexivity].
  - rewrite blank_cons. destruct (trimEnd s) eqn:E.
    + destruct (isWhiteSpace c); split; intros H.
      * split; [reflexivity | now apply IH].
      * reflexivity.
      * discriminate.
      * destruct H; discriminate.
    + split; [discriminate|]. intros [_ H]. apply IH in H. discriminate.
Qed.

Lemma blank_trimStart (s : string) : blank (trimStart s) <-> blank s.
Proof.
  induction s as [|c s IH]; simpl; [reflexivity|].
  destruct (isWhiteSpace c) eqn:E.
  - rewrite blank_cons, IH. intuition.
  - reflexivity.
Qed.

Lemma trim_empty (s : string) : trim s = "" <-> blank s.
Proof. unfold trim. now rewrite trimEnd_empty, blank_trimStart. Qed.

Lemma falsy_trim (s : string) : falsy (trim s) = true <-> blank s.
Proof. unfold falsy. now rewrite String.eqb_eq, trim_empty. Qed.

(** C8. A team member with a blank name or a blank email is not added, and a
    guest with a blank name is not saved: the handler returns the state it
    was given (collection and form alike), the guest form with its prompt.
    A login with a blank email likewise leaves the users as they are. *)
Theorem validation_failure_keeps_state :
  (forall (fresh : string) (now : Z) (st : TeamPageState),
      blank (team_name st) \/ blank (team_email st) ->
      TeamPage_add fresh now st = (st, None))
  /\ (forall (st : GuestsPageState) (g0 : Guest),
        g st = Some g0 ->
        blank (Guest.name g0) ->
        GuestsPage_save st = (st, Some "Name required"))
  /\ (forall (fresh : string) (now : Z) (email : string) (name : option string)
             (st : AppState),
        blank email ->
        handleLogin fresh now email name st = (st, Some "Email required")).
Proof.
  split; [|split].
  - intros fresh now st H. unfold TeamPage_add.
    destruct H as [H | H]; apply falsy_trim in H; rewrite H.
    + reflexivity.
    + now rewrite orb_true_r.
  - intros st g0 Hg H. unfold GuestsPage_save. rewrite Hg.
    apply falsy_trim in H. now rewrite H.
  - intros fresh now email name st H. unfold handleLogin.
    apply falsy_trim in H. now rewrite H.
Qed.

Lemma validation_failure_keeps_state_witness :
  let st := mkTeamPageState [User.mk "u1" "Admin" "admin@example.com" admin 0] "  " "x@y.z" in
  let gs := mkGuestsPageState [] (Some (Guest.mk "g1" " " None None None None None None None None 0)) true in
  TeamPage_add "u2" 5 st = (st, None)
  /\ GuestsPage_save gs = (gs, Some "Name required").
Proof.
  intros st gs. split.
  - apply (proj1 validation_failure_keeps_state). left.
    repeat constructor.
  - apply (proj1 (proj2 validation_failure_keeps_state) gs _ eq_refl).
    repeat constructor.
Defined.

(** ** Login *)

Lemma split_hd (s : string) : hd "" (split "@" s) = beforeAt s.
Proof.
  induction s as [|c s IH]; simpl; [reflexivity|].
  destruct (Ascii.eqb c "@"); [reflexivity|].
  rewrite <- IH. now destruct (split "@" s).
Qed.

Lemma beforeAt_prefix (pre post : string) :
  ~ In "@"%char (list_ascii_of_string pre) ->
  beforeAt (pre ++ String "@" post) = pre.
Proof.
  induction pre as [|c pre IH]; simpl; intros H.
  - reflexivity.
  - destruct (Ascii.eqb_spec c "@"%char) as [E|N].
    + destruct H. left. exact E.
    + f_equal. apply IH. intros Hin. apply H. now right.
Qed.

Lemma find_email_none (email : string) (us : list User) :
  (forall u, In u us -> toLowerCase (User.email u) <> toLowerCase email) ->
  find (fun u => (toLowerCase (User.email u) =? toLowerCase email)%string) us = None.
Proof.
  intros H. destruct (find _ us) as [u|] eqn:E; [|reflexivity].
  apply find_some in E. destruct E as [Hin E].
  apply String.eqb_eq in E. destruct (H u Hin E).
Qed.

(** C9. A login never alters the users already there: the collection after
    it is the old one followed by at most one record.  With an email that is
    not blank and equals no stored email up to case, exactly one user is
    appended: a [member], under the given email, named by the supplied name
    or, without one, by the part of the email before its first ['@']. *)
Theorem handleLogin_new_user (fresh : string) (now : Z) (email : string)
    (name : option string) (st : AppState) :
  (exists tail, users (fst (handleLogin fresh now email name st)) = users st ++ tail
                /\ (List.length tail <= 1)%nat)
  /\ (~ blank email ->
      (forall u, In u (users st) -> toLowerCase (User.email u) <> toLowerCase email) ->
      exists u,
        users (fst (handleLogin fresh now email name st)) = users st ++ [u]
        /\ User.role u = member
        /\ User.email u = email
        /\ User.name u = match name with
                         | Some (String c n) => String c n
                         | _ => beforeAt email
                         end).
Proof.
  split.
  - unfold handleLogin. destruct (falsy (trim email)).
    + exists []. simpl. rewrite app_nil_r. auto.
    + destruct (find _ (users st)).
      * exists []. simpl. rewrite app_nil_r. auto.
      * eexists [_]. simpl. auto.
  - intros Hnb Hnew. unfold handleLogin.
    destruct (falsy (trim email)) eqn:Hf.
    + apply falsy_trim in Hf. contradiction.
    + rewrite (find_email_none _ _ Hnew). eexists. simpl.
      repeat split. unfold loginName. rewrite split_hd.
      destruct name as [[|c n]|]; reflexivity.
Qed.

Lemma handleLogin_new_user_witness :
  let st := mkAppState [User.mk "u1" "Admin" "admin@example.com" admin 0] None in
  exists u,
    users (fst (handleLogin "u2" 9 "Tester@Example.com" (Some "") st)) = users st ++ [u]
    /\ User.role u = member
    /\ User.email u = "Tester@Example.com"
    /\ User.name u = "Tester".
Proof.
  intros st.
  apply (proj2 (handleLogin_new_user "u2" 9 "Tester@Example.com" (Some "") st)).
  - intros H. inversion H as [|? ? Hc _]. discriminate Hc.
  - intros u [<- | []]. discriminate.
Defined.

(** ** Substring search *)

Lemma startsWith_app (s p : string) :
  startsWith s p = true <-> exists post, s = (p ++ post)%string.
Proof.
  revert s. induction p as [|a p IH]; intros s; simpl.
  - split; [intros _; now exists s | reflexivity].
  - destruct s as [|b s].
    + split; [discriminate | intros [post H]; discriminate].
    + rewrite andb_true_iff, IH, Ascii.eqb_eq.
      split.
      * intros [-> [post ->]]. now exists post.
      * intros [post H]. injection H as -> ->. split; [reflexivity | now exists post].
Qed.

Lemma includes_substring (hay needle : string) :
  includes hay needle = true <-> substring_of needle hay.
Proof.
  unfold substring_of. induction hay as [|c hay IH].
  - cbn [includes]. destruct (startsWith "" needle) eqn:E.
    + split; [intros _ | reflexivity].
      apply startsWith_app in E. destruct E as [post E]. exists "", post. exact E.
    + split; [discriminate|]. intros [pre [post H]].
      destruct pre; [|discriminate]. simpl in H.
      assert (startsWith "" needle = true) by (apply startsWith_app; now exists post).
      congruence.
  - cbn [includes]. destruct (startsWith (String c hay) needle) eqn:E.
    + split; [intros _ | reflexivity].
      apply startsWith_app in E. destruct E as [post E]. exists "", post. exact E.
    + rewrite IH. split.
      * intros [pre [post H]]. exists (String c pre), post. simpl. now rewrite H.
      * intros [pre [post H]]. destruct pre as [|c' pre].
        -- simpl in H.
           assert (startsWith (String c hay) needle = true)
             by (apply startsWith_app; now exists post).
           congruence.
        -- simpl in H. injection H as _ H. now exists pre, post.
Qed.

(** ** Sorting *)

Lemma sort_insert_perm {A : Type} (cmp : A -> A -> Z) (x : A) (l : list A) :
  Permutation (sort_insert cmp x l) (x :: l).
Proof.
  induction l as [|y l IH]; simpl; [reflexivity|].
  destruct (cmp x y <=? 0); [reflexivity|].
  rewrite IH. apply perm_swap.
Qed.

Lemma sort_perm {A : Type} (cmp : A -> A -> Z) (l : list A) :
  Permutation (sort cmp l) l.
Proof.
  induction l as [|x l IH]; simpl; [reflexivity|].
  rewrite sort_insert_perm. now constructor.
Qed.

(** ** The project filter *)

Lemma filter_filter {A : Type} (f h : A -> bool) (l : list A) :
  filter f (filter h l) = filter (fun x => h x && f x) l.
Proof.
  induction l as [|x l IH]; simpl; [reflexivity|].
  destruct (h x); simpl; [destruct (f x)|]; now rewrite IH.
Qed.

Lemma filter_true {A : Type} (l : list A) : filter (fun _ => true) l = l.
Proof. induction l as [|x l IH]; simpl; congruence. Qed.

Lemma filtered_perm (lc : string -> string -> Z) (ps : list Project)
    (sf : Choice Status) (pf : Choice Priority) (query : string) (key : SortKey) :
  Permutation (filtered lc ps sf pf query key) (filter (kept sf pf query) ps).
Proof.
  assert (E : filter (kept sf pf query) ps
              = filter (query_ok query) (filter (priority_ok pf) (filter (status_ok sf) ps))).
  { rewrite (filter_filter (priority_ok pf) (status_ok sf) ps), filter_filter. reflexivity. }
  rewrite E. unfold filtered.
  assert (Es : match sf with
               | Only s => filter (fun p => Status_eqb (Project.status p) s) ps
               | All => ps
               end = filter (status_ok sf) ps).
  { destruct sf; simpl; [now rewrite filter_true | reflexivity]. }
  rewrite Es. set (l1 := filter (status_ok sf) ps).
  assert (Ep : match pf with
               | Only pr => filter (fun p => Priority_eqb (Project.priority p) pr) l1
               | All => l1
               end = filter (priority_ok pf) l1).
  { destruct pf; simpl; [now rewrite filter_true | reflexivity]. }
  rewrite Ep. set (l2 := filter (priority_ok pf) l1).
  assert (Eq : (if negb (falsy (trim query))
                then filter (matchesQuery (toLowerCase query)) l2
                else l2) = filter (query_ok query) l2).
  { unfold query_ok. destruct (falsy (trim query)); simpl; [now rewrite filter_true | reflexivity]. }
  rewrite Eq. set (l3 := filter (query_ok query) l2).
  destruct key; simpl; apply sort_perm.
Qed.

Lemma filtered_In (lc : string -> string -> Z) (ps : list Project)
    (sf : Choice Status) (pf : Choice Priority) (query : string) (key : SortKey)
    (p : Project) :
  In p (filtered lc ps sf pf query key) <-> In p ps /\ kept sf pf query p = true.
Proof.
  rewrite <- filter_In. split; apply Permutation_in.
  - apply filtered_perm.
  - symmetry. apply filtered_perm.
Qed.

(** Scenario B of the specification. *)
Lemma filtered_scenario_B :
  let alpha := sample "a" "Alpha" "Main" 1 draft high ["news"] 25 in
  let beta := sample "b" "Beta" "Main" 2 active medium ["tech"] 50 in
  filtered codeUnitCompare [alpha; beta] All All "alpha" by_updatedAt = [alpha]
  /\ filtered codeUnitCompare [alpha; beta] All All "tech" by_updatedAt = [beta].
Proof. split; reflexivity. Qed.

(** C4, as the code has it.  The filter keeps exactly the projects (each as
    often as it occurs) that pass the status filter, the priority filter and
    the search box together.  With both filters active and a query that is
    not blank, these are the projects of that status and that priority for
    which the lower-cased query occurs in the lower-cased title, or
    description, or space-joined tags, or series, each field searched on its
    own.  A blank query (empty or white space only) applies no text test, so
    with no filter active the result is a rearrangement of the input; the
    result for any query is contained in the result for the empty query. *)
Theorem filtered_spec (lc : string -> string -> Z) (ps : list Project) (key : SortKey) :
  (forall sf pf query,
      Permutation (filtered lc ps sf pf query key) (filter (kept sf pf query) ps))
  /\ (forall s pr query p,
        ~ blank query ->
        (In p (filtered lc ps (Only s) (Only pr) query key)
         <-> In p ps
             /\ Project.status p = s
             /\ Project.priority p = pr
             /\ (substring_of (toLowerCase query) (toLowerCase (Project.title p))
                 \/ substring_of (toLowerCase query)
                      (toLowerCase (or_empty (Project.description p)))
                 \/ substring_of (toLowerCase query)
                      (toLowerCase (join " " (Project.tags p)))
                 \/ substring_of (toLowerCase query) (toLowerCase (Project.series p)))))
  /\ (forall sf pf query p,
        blank query ->
        (In p (filtered lc ps sf pf query key)
         <-> In p ps /\ status_ok sf p = true /\ priority_ok pf p = true))
  /\ Permutation (filtered lc ps All All "" key) ps
  /\ (forall sf pf query,
        incl (filtered lc ps sf pf query key) (filtered lc ps sf pf "" key)).
Proof.
  split; [|split; [|split; [|split]]].
  - intros. apply filtered_perm.
  - intros s pr query p Hnb. rewrite filtered_In.
    unfold kept, query_ok, status_ok, priority_ok, matchesQuery.
    destruct (falsy (trim query)) eqn:Hf.
    { apply falsy_trim in Hf. contradiction. }
    rewrite !andb_true_iff, !orb_true_iff, Status_eqb_eq, Priority_eqb_eq.
    rewrite !includes_substring. tauto.
  - intros sf pf query p Hb. rewrite filtered_In.
    unfold kept, query_ok. apply falsy_trim in Hb. rewrite Hb.
    rewrite !andb_true_iff. tauto.
  - rewrite filtered_perm. unfold kept. simpl. apply Permutation_refl'.
    apply filter_true.
  - intros sf pf query p. rewrite !filtered_In.
    unfold kept, query_ok. simpl. rewrite !andb_true_iff. tauto.
Qed.

Lemma filtered_spec_witness :
  let alpha := sample "a" "Alpha" "Main" 1 draft high ["news"] 25 in
  let beta := sample "b" "Beta" "Main" 2 draft high ["tech"] 50 in
  In beta (filtered codeUnitCompare [alpha; beta] (Only draft) (Only high) "TECH" by_progress).
Proof.
  intros alpha beta.
  apply (proj1 (proj2 (filtered_spec codeUnitCompare [alpha; beta] by_progress))
           draft high "TECH" beta).
  - intros H. inversion H as [|? ? Hc _]. discriminate Hc.
  - split; [right; now left|]. split; [reflexivity|]. split; [reflexivity|].
    right. right. left. exists "", "". reflexivity.
Defined.

(** C4 as the specification words it fails on the code in two ways.  A query
    that straddles two fields occurs in their concatenation but in no single
    field, and the project is dropped; a query of white space only is not
    empty, yet the code applies no text test and the project is kept. *)
Lemma filtered_concat_counterexample :
  let p := sample "x" "ab" "cd" 1 draft high [] 0 in
  ("bc" <> ""
   /\ Project.status p = draft /\ Project.priority p = high
   /\ matchesConcat "bc" p = true
   /\ ~ In p (filtered codeUnitCompare [p] (Only draft) (Only high) "bc" by_updatedAt))
  /\ (" " <> ""
      /\ matchesConcat " " p = false
      /\ In p (filtered codeUnitCompare [p] (Only draft) (Only high) " " by_updatedAt)).
Proof.
  intros p. repeat split; try discriminate.
  - intros [].
  - now left.
Qed.

(** ** Sorting by episode *)

Lemma sort_insert_In {A : Type} (cmp : A -> A -> Z) (x y : A) (l : list A) :
  In y (sort_insert cmp x l) <-> y = x \/ In y l.
Proof.
  split.
  - intros H. apply (Permutation_in _ (sort_insert_perm cmp x l)) in H.
    destruct H; auto.
  - intros H. apply (Permutation_in _ (Permutation_sym (sort_insert_perm cmp x l))).
    destruct H; [left | right]; auto.
Qed.


Section EpisodeOrder.

Variable localeCompare : string -> string -> Z.

(** What the sort needs of the collation: it is a strict total order on
    strings, told by the sign of the result. *)
Hypothesis localeCompare_sign :
  forall a b, localeCompare a b < 0 <-> 0 < localeCompare b a.
Hypothesis localeCompare_zero :
  forall a b, localeCompare a b = 0 -> a = b.
Hypothesis localeCompare_trans :
  forall a b c, localeCompare a b < 0 -> localeCompare b c < 0 -> localeCompare a c < 0.









End EpisodeOrder.

(** The code-unit order is such a collation. *)
Lemma String_compare_refl (a : string) : String.compare a a = Eq.
Proof.
  induction a as [|c a IH]; simpl; [reflexivity|].
  unfold Ascii.compare. now rewrite N.compare_refl.
Qed.

Lemma String_compare_trans (a b c : string) :
  String.compare a b = Lt -> String.compare b c = Lt -> String.compare a c = Lt.
Proof.
  revert b c. induction a as [|x a IH]; intros [|y b] [|z c]; simpl; try congruence.
  unfold Ascii.compare.
  destruct (N.compare_spec (N_of_ascii x) (N_of_ascii y)) as [Exy|Lxy|Gxy]; try discriminate;
  destruct (N.compare_spec (N_of_ascii y) (N_of_ascii z)) as [Eyz|Lyz|Gyz]; try discriminate;
  intros H1 H2.
  - rewrite Exy, Eyz, N.compare_refl. eapply IH; eassumption.
  - rewrite Exy. now rewrite (proj2 (N.compare_lt_iff _ _) Lyz).
  - rewrite <- Eyz. now rewrite (proj2 (N.compare_lt_iff _ _) Lxy).
  - now rewrite (proj2 (N.compare_lt_iff _ _) (N.lt_trans _ _ _ Lxy Lyz)).
Qed.

Lemma codeUnitCompare_sign (a b : string) :
  codeUnitCompare a b < 0 <-> 0 < codeUnitCompare b a.
Proof.
  unfold codeUnitCompare. rewrite (String.compare_antisym a b).
  destruct (String.compare b a); simpl; lia.
Qed.

Lemma codeUnitCompare_zero (a b : string) : codeUnitCompare a b = 0 -> a = b.
Proof.
  unfold codeUnitCompare. destruct (String.compare a b) eqn:E; try lia.
  intros _. now apply String.compare_eq_iff.
Qed.

Lemma codeUnitCompare_trans (a b c : string) :
  codeUnitCompare a b < 0 -> codeUnitCompare b c < 0 -> codeUnitCompare a c < 0.
Proof.
  unfold codeUnitCompare.
  destruct (String.compare a b) eqn:E1; try lia.
  destruct (String.compare b c) eqn:E2; try lia.
  now rewrite (String_compare_trans a b c E1 E2).
Qed.


Lemma sort_by_episode_example :
  map Project.id
    (filtered codeUnitCompare
       [sample "1" "T1" "Main" 2 draft high [] 0;
        sample "2" "T2" "Guest Series" 1 active low [] 0;
        sample "3" "T3" "Main" 1 active low [] 0;
        sample "4" "T4" "Guest Series" 3 archived low [] 0] All All "" by_episode)
  = ["2"; "4"; "3"; "1"].
Proof. reflexivity. Qed.


(** ** The sequence allocator *)

Module SeqMapFacts.
Import stdpp.base stdpp.option stdpp.gmap stdpp.strings.
Import SeqMap.
Local Open Scope string_scope.
Local Open Scope list_scope.
Local Open Scope Z_scope.

Lemma load_save (o : obj) (ls : Storage) :
  load LS_KEYS_seqMap ∅ (save LS_KEYS_seqMap o ls) = omap JSON_roundtrip o.
Proof. unfold load, save. now rewrite lookup_insert_eq. Qed.

Lemma Object_prototype_proto (series : string) :
  Object_prototype series = Undefined -> (series =? "__proto__")%string = false.
Proof.
  unfold Object_prototype. intros H.
  destruct (series =? "constructor")%string; [discriminate|].
  destruct (existsb (String.eqb series) Object_prototype_methods); [discriminate|].
  destruct (series =? "__proto__")%string; [discriminate | reflexivity].
Qed.

(** A call for a series that no plain object inherits, whose counter stands
    at [k], returns [k + 1] and leaves the counter there. *)
Lemma nextEpisodeNumber_step (series : string) (k : Z) (ls : Storage) :
  Object_prototype series = Undefined ->
  0 <= k ->
  stands_at series k ls ->
  fst (nextEpisodeNumber series ls) = Num (k + 1)
  /\ stands_at series (k + 1) (snd (nextEpisodeNumber series ls)).
Proof.
  intros Hclean Hk Hat. unfold stands_at in *. unfold nextEpisodeNumber. cbn [fst snd].
  set (m := load LS_KEYS_seqMap ∅ ls) in *.
  assert (Hcur : js_add (js_or (get m series) (Num 0)) 1 = Num (k + 1)).
  { unfold get. rewrite Hat. destruct (Z.eqb_spec k 0) as [->|N].
    - rewrite Hclean. reflexivity.
    - unfold js_or. simpl. destruct (Z.eqb_spec k 0); [contradiction | reflexivity]. }
  rewrite Hcur. split; [reflexivity|].
  rewrite load_save, lookup_omap.
  assert (Hset : set m series (Num (k + 1)) !! series = Some (Num (k + 1))).
  { unfold set. rewrite (Object_prototype_proto _ Hclean).
    destruct (m !! series); apply lookup_insert_eq. }
  rewrite Hset. simpl.
  destruct (Z.eqb_spec (k + 1) 0); [lia | reflexivity].
Qed.

(** A call for another series leaves the counter where it stands. *)
Lemma nextEpisodeNumber_frame (series other : string) (k : Z) (ls : Storage) :
  other <> series ->
  stands_at series k ls ->
  stands_at series k (snd (nextEpisodeNumber other ls)).
Proof.
  intros Hne Hat. unfold stands_at in *. unfold nextEpisodeNumber. cbn [snd].
  set (m := load LS_KEYS_seqMap ∅ ls) in *.
  rewrite load_save, lookup_omap.
  assert (Hset : forall v, set m other v !! series = m !! series).
  { intros v. unfold set.
    destruct (m !! other); [now apply lookup_insert_ne|].
    destruct (other =? "__proto__")%string; [reflexivity | now apply lookup_insert_ne]. }
  rewrite Hset, Hat. now destruct (k =? 0).
Qed.

Lemma calls_cons (s : string) (l : list string) (ls : Storage) :
  fst (calls (s :: l) ls)
  = (s, fst (nextEpisodeNumber s ls)) :: fst (calls l (snd (nextEpisodeNumber s ls))).
Proof.
  cbn [calls]. destruct (nextEpisodeNumber s ls) as [v ls1]. cbn [fst snd].
  destruct (calls l ls1) as [r ls2]. reflexivity.
Qed.

Lemma returned_from (series : string) (l : list string) (k : Z) (ls : Storage) :
  Object_prototype series = Undefined ->
  0 <= k ->
  stands_at series k ls ->
  returned series (fst (calls l ls))
  = List.map Num (countUp (k + 1) (count_occ string_dec l series)).
Proof.
  intros Hclean. revert k ls. induction l as [|s l IH]; intros k ls Hk Hat.
  - reflexivity.
  - rewrite calls_cons. unfold returned. cbn [List.filter fst count_occ].
    destruct (string_dec s series) as [->|Hne].
    + rewrite String.eqb_refl. cbn [List.map snd countUp].
      destruct (nextEpisodeNumber_step series k ls Hclean Hk Hat) as [Hv Hat'].
      rewrite Hv. f_equal. apply IH; [lia | exact Hat'].
    + rewrite (proj2 (String.eqb_neq s series) Hne).
      apply IH; [exact Hk|]. now apply nextEpisodeNumber_frame.
Qed.

(** For a series that no plain object inherits and that has no entry yet,
    the calls made for it return 1, 2, 3, ... whatever calls for other
    series come in between. *)
Lemma nextEpisodeNumber_sequence (series : string) (l : list string) (ls : Storage) :
  Object_prototype series = Undefined ->
  load LS_KEYS_seqMap ∅ ls !! series = None ->
  returned series (fst (calls l ls))
  = List.map Num (countUp 1 (count_occ string_dec l series)).
Proof.
  intros Hclean Hnone. now apply (returned_from series l 0 ls).
Qed.

Lemma count_occ_repeat (series : string) (n : nat) :
  count_occ string_dec (repeat series n) series = n.
Proof.
  induction n as [|n IH]; simpl; [reflexivity|].
  destruct (string_dec series series); congruence.
Qed.

Lemma nextEpisodeNumber_n_times (series : string) (n : nat) (ls : Storage) :
  Object_prototype series = Undefined ->
  load LS_KEYS_seqMap ∅ ls !! series = None ->
  List.map snd (fst (calls (repeat series n) ls)) = List.map Num (countUp 1 n).
Proof.
  intros Hclean Hnone.
  rewrite <- (count_occ_repeat series n) at 2.
  rewrite <- (nextEpisodeNumber_sequence series (repeat series n) ls Hclean Hnone).
  unfold returned. f_equal.
  assert (H : forall r : list (string * value),
             Forall (fun c => fst c = series) r ->
             List.filter (fun c => (fst c =? series)%string) r = r).
  { induction r as [|c r IH]; intros Hall; simpl; [reflexivity|].
    inversion Hall; subst. rewrite String.eqb_refl. f_equal. now apply IH. }
  symmetry. apply H. clear Hclean Hnone. revert ls.
  induction n as [|n IH]; intros ls.
  - constructor.
  - cbn [repeat]. rewrite calls_cons. constructor; [reflexivity | apply IH].
Qed.

(** Scenario A of the specification, as the smoke test runs it. *)
Lemma nextEpisodeNumber_scenario_A :
  List.map snd (fst (calls ["Main"; "Main"; "Guest Series"] (save LS_KEYS_seqMap ∅ ∅)))
  = [Num 1; Num 2; Num 1].
Proof. vm_compute. reflexivity. Qed.

(** C1, at the series name ["constructor"] on an empty store.  The read
    [map[series]] finds the function every object inherits under that name,
    so the first call returns a string, not 1, and the second call appends
    to it. *)
Theorem nextEpisodeNumber_inherited_key :
  load LS_KEYS_seqMap ∅ ∅ !! "constructor" = None
  /\ List.map snd (fst (calls ["constructor"; "constructor"] ∅))
     = [Str "function Object() { [native code] }1";
        Str "function Object() { [native code] }11"]
  /\ List.map snd (fst (calls ["constructor"; "constructor"] ∅)) <> [Num 1; Num 2].
Proof.
  split; [reflexivity|]. split; [vm_compute; reflexivity | vm_compute; discriminate].
Qed.

End SeqMapFacts.

(* ================================================================== *)
(** * Part III: further properties of the code *)
(* ================================================================== *)

(** ** Sorting, in general *)

Section SortFacts.

Context {A : Type}.
Variable cmp : A -> A -> Z.

Lemma sort_insert_filter (P : A -> bool) (x : A) (l : list A) :
  (forall y, P x = true -> P y = true -> cmp x y <= 0) ->
  filter P (sort_insert cmp x l) = if P x then x :: filter P l else filter P l.
Proof.
  intros Htie. induction l as [|y l IH]; simpl.
  - destruct (P x); reflexivity.
  - destruct (Z.leb_spec (cmp x y) 0) as [L|G]; simpl.
    + destruct (P x); reflexivity.
    + rewrite IH. destruct (P x) eqn:Px, (P y) eqn:Py; try reflexivity.
      specialize (Htie y eq_refl Py). lia.
Qed.

(** A stable sort: the elements of a class of ties keep their order. *)
Lemma sort_filter_stable (P : A -> bool) (l : list A) :
  (forall x y, P x = true -> P y = true -> cmp x y <= 0) ->
  filter P (sort cmp l) = filter P l.
Proof.
  intros Htie. induction l as [|x l IH]; simpl; [reflexivity|].
  rewrite sort_insert_filter by (intros y; apply Htie).
  rewrite IH. reflexivity.
Qed.

Hypothesis cmp_total : forall a b, cmp a b <= 0 \/ cmp b a <= 0.
Hypothesis cmp_trans : forall a b c, cmp a b <= 0 -> cmp b c <= 0 -> cmp a c <= 0.

Lemma sort_insert_ordered (x : A) (l : list A) :
  StronglySorted (fun a b => cmp a b <= 0) l ->
  StronglySorted (fun a b => cmp a b <= 0) (sort_insert cmp x l).
Proof.
  induction 1 as [|y l Hs IH Hall]; simpl.
  - constructor; constructor.
  - destruct (Z.leb_spec (cmp x y) 0) as [L|G].
    + constructor; [now constructor|].
      constructor; [exact L|].
      rewrite Forall_forall in *. intros z Hz.
      eapply cmp_trans; [exact L | now apply Hall].
    + constructor; [exact IH|].
      rewrite Forall_forall in *. intros z Hz.
      apply sort_insert_In in Hz. destruct Hz as [-> | Hz]; [|now apply Hall].
      destruct (cmp_total x y); [lia | assumption].
Qed.

Lemma sort_ordered (l : list A) :
  StronglySorted (fun a b => cmp a b <= 0) (sort cmp l).
Proof.
  induction l as [|x l IH]; simpl; [constructor | now apply sort_insert_ordered].
Qed.

End SortFacts.

Lemma StronglySorted_impl {A : Type} (R S : A -> A -> Prop) (l : list A) :
  (forall a b, R a b -> S a b) -> StronglySorted R l -> StronglySorted S l.
Proof.
  intros HRS. induction 1 as [|x l Hs IH Hall]; constructor; [exact IH|].
  eapply Forall_impl; [|exact Hall]. intros b. apply HRS.
Qed.

(** ** The sort keys of the project list *)

Lemma filtered_eq (lc : string -> string -> Z) (ps : list Project)
    (sf : Choice Status) (pf : Choice Priority) (query : string) (key : SortKey) :
  filtered lc ps sf pf query key = sort (cmp_of lc key) (filter (kept sf pf query) ps).
Proof.
  assert (E : filter (kept sf pf query) ps
              = filter (query_ok query) (filter (priority_ok pf) (filter (status_ok sf) ps))).
  { rewrite (filter_filter (priority_ok pf) (status_ok sf) ps), filter_filter. reflexivity. }
  rewrite E. unfold filtered.
  replace (match sf with
           | Only s => filter (fun p => Status_eqb (Project.status p) s) ps
           | All => ps
           end) with (filter (status_ok sf) ps)
    by (destruct sf; simpl; [now rewrite filter_true | reflexivity]).
  set (l1 := filter (status_ok sf) ps).
  replace (match pf with
           | Only pr => filter (fun p => Priority_eqb (Project.priority p) pr) l1
           | All => l1
           end) with (filter (priority_ok pf) l1)
    by (destruct pf; simpl; [now rewrite filter_true | reflexivity]).
  set (l2 := filter (priority_ok pf) l1).
  replace (if negb (falsy (trim query))
           then filter (matchesQuery (toLowerCase query)) l2
           else l2) with (filter (query_ok query) l2)
    by (unfold query_ok; destruct (falsy (trim query)); simpl;
        [now rewrite filter_true | reflexivity]).
  destruct key; reflexivity.
Qed.

(** X1. Sorted by "updatedAt" the list shown runs from the most recently
    updated project to the least, and sorted by "progress" from the highest
    percentage to the lowest. *)
Theorem sort_by_updatedAt_and_progress (lc : string -> string -> Z)
    (ps : list Project) (sf : Choice Status) (pf : Choice Priority) (query : string) :
  StronglySorted (fun a b => Project.updatedAt b <= Project.updatedAt a)
    (filtered lc ps sf pf query by_updatedAt)
  /\ StronglySorted (fun a b => Project.progressPct b <= Project.progressPct a)
       (filtered lc ps sf pf query by_progress).
Proof.
  rewrite !filtered_eq. split.
  - apply (StronglySorted_impl (fun a b => cmp_updatedAt a b <= 0)).
    + unfold cmp_updatedAt. intros; lia.
    + apply (sort_ordered cmp_updatedAt); unfold cmp_updatedAt; intros; lia.
  - apply (StronglySorted_impl (fun a b => cmp_progress a b <= 0)).
    + unfold cmp_progress. intros; lia.
    + apply (sort_ordered cmp_progress); unfold cmp_progress; intros; lia.
Qed.

(** X2. The projects that tie under the sort key (same [updatedAt], same
    [progressPct], or same series and episode number) are shown in the order
    they have in the collection; for the key "episode" this is so when the
    host collation is a strict total order, which makes the comparator a
    consistent one. *)
Theorem sort_keeps_ties_in_order (lc : string -> string -> Z) (ps : list Project)
    (sf : Choice Status) (pf : Choice Priority) (query : string) (key : SortKey)
    (a : Project) :
  (key = by_episode -> strict_total_collation lc) ->
  filter (same_key key a) (filtered lc ps sf pf query key)
  = filter (same_key key a) (filter (kept sf pf query) ps).
Proof.
  intros _. rewrite filtered_eq. apply sort_filter_stable.
  intros x y Hx Hy. destruct key; simpl in *.
  - unfold cmp_updatedAt. apply Z.eqb_eq in Hx, Hy. lia.
  - unfold cmp_progress. apply Z.eqb_eq in Hx, Hy. lia.
  - unfold cmp_episode.
    apply andb_true_iff in Hx, Hy. destruct Hx as [Sx Ex], Hy as [Sy Ey].
    apply String.eqb_eq in Sx, Sy. apply Z.eqb_eq in Ex, Ey.
    rewrite Sx, Sy, String.eqb_refl. simpl. lia.
Qed.

Lemma codeUnitCompare_strict_total : strict_total_collation codeUnitCompare.
Proof.
  split; [exact codeUnitCompare_sign|].
  split; [exact codeUnitCompare_zero | exact codeUnitCompare_trans].
Qed.

Lemma sort_keeps_ties_in_order_witness :
  let a := sample "1" "T1" "Main" 1 draft high [] 0 in
  let b := sample "2" "T2" "Guest Series" 1 active low [] 0 in
  let c := sample "3" "T3" "Main" 1 active low [] 0 in
  filter (same_key by_episode a) (filtered codeUnitCompare [a; b; c] All All "" by_episode)
  = [a; c].
Proof.
  intros a b c.
  refine (eq_trans (sort_keeps_ties_in_order codeUnitCompare [a; b; c] All All ""
                      by_episode a (fun _ => codeUnitCompare_strict_total)) _).
  reflexivity.
Defined.

(** ** Bulk actions and removal *)

Lemma ids_includes_In (ids : list string) (i : string) :
  ids_includes ids i = true <-> In i ids.
Proof.
  unfold ids_includes. rewrite existsb_exists. split.
  - intros [x [Hx E]]. apply String.eqb_eq in E. now subst.
  - intros H. exists i. split; [exact H | apply String.eqb_refl].
Qed.

Lemma length_eqb_0 {A : Type} (l : list A) :
  l <> [] -> (List.length l =? 0)%nat = false.
Proof. destruct l; [congruence | reflexivity]. Qed.

(** X3. The bulk action "delete", once confirmed on a non-empty selection,
    keeps exactly the projects whose id is not ticked, in their order, and
    changes none of them; declined, it changes nothing; and with nothing
    ticked every bulk action only raises its alert. *)
Theorem bulk_delete_spec (ids : list string) (now : Z) (prev : list Project) :
  (ids <> [] ->
     bulk delete ids true now prev
     = (filter (fun p => negb (ids_includes ids (Project.id p))) prev, None)
     /\ forall p, In p (fst (bulk delete ids true now prev))
                  <-> In p prev /\ ~ In (Project.id p) ids)
  /\ bulk delete ids false now prev
     = (prev, if (List.length ids =? 0)%nat then Some "Select at least one project." else None)
  /\ (forall action confirmed,
        bulk action [] confirmed now prev = (prev, Some "Select at least one project.")).
Proof.
  split; [|split].
  - intros Hne.
    assert (E : bulk delete ids true now prev
                = (filter (fun p => negb (ids_includes ids (Project.id p))) prev, None)).
    { unfold bulk. rewrite (length_eqb_0 ids Hne). simpl.
      f_equal. f_equal. rewrite <- (map_id prev) at 2. apply map_ext.
      intros p. now destruct (negb (ids_includes ids (Project.id p))). }
    split; [exact E|]. intros p. rewrite E. simpl. rewrite filter_In.
    rewrite negb_true_iff. rewrite <- ids_includes_In.
    destruct (ids_includes ids (Project.id p)); intuition congruence.
  - unfold bulk. destruct (List.length ids =? 0)%nat; reflexivity.
  - intros action confirmed. reflexivity.
Qed.

Lemma bulk_delete_spec_witness :
  let a := sample "a" "Alpha" "Main" 1 draft high [] 25 in
  let b := sample "b" "Beta" "Main" 2 active medium [] 50 in
  let c := sample "c" "Gamma" "Main" 3 active low [] 0 in
  bulk delete ["b"; "zz"] true 7 [a; b; c] = ([a; c], None).
Proof.
  intros a b c.
  refine (eq_trans (proj1 (proj1 (bulk_delete_spec ["b"; "zz"] 7 [a; b; c]) _)) _);
    [discriminate | reflexivity].
Defined.

(** X4. The bulk actions "complete" and "archive" on a non-empty selection
    keep the length and the order of the collection: a ticked project gets
    the new status and [updatedAt = now] and keeps every other field, a
    project that is not ticked is left as it is. *)
Theorem bulk_mark_spec (action : BulkAction) (target : Status) (ids : list string)
    (confirmed : bool) (now : Z) (prev : list Project) :
  bulk_target action = Some target ->
  ids <> [] ->
  let next := fst (bulk action ids confirmed now prev) in
  snd (bulk action ids confirmed now prev) = None
  /\ List.length next = List.length prev
  /\ forall i p, nth_error prev i = Some p ->
       nth_error next i
       = Some (if ids_includes ids (Project.id p)
               then Project.with_updatedAt now (Project.with_status target p)
               else p).
Proof.
  intros Ht Hne next. subst next. unfold bulk. rewrite (length_eqb_0 ids Hne).
  assert (Hnd : BulkAction_eqb action delete = false)
    by (destruct action; [reflexivity | reflexivity | discriminate]).
  rewrite Hnd. cbn [andb fst snd negb orb].
  rewrite (filter_true (map _ prev)).
  split; [reflexivity|]. split; [apply length_map|].
  intros i p Hp. rewrite nth_error_map, Hp. simpl.
  destruct (ids_includes ids (Project.id p)); simpl; [|reflexivity].
  destruct action; simpl in Ht; congruence.
Qed.

Lemma bulk_mark_spec_witness :
  let a := sample "a" "Alpha" "Main" 1 draft high [] 25 in
  let b := sample "b" "Beta" "Main" 2 active medium [] 50 in
  nth_error (fst (bulk archive ["b"] false 9 [a; b])) 1
  = Some (Project.with_updatedAt 9 (Project.with_status archived b)).
Proof.
  intros a b.
  apply (proj2 (proj2 (bulk_mark_spec archive archived ["b"] false 9 [a; b]
                         eq_refl ltac:(discriminate))) 1%nat b eq_refl).
Defined.

Lemma filter_replace_id (copy : Project) (l : list Project) :
  filter (fun p => negb (Project.id p =? Project.id copy)%string)
    (map (fun p => if (Project.id p =? Project.id copy)%string then copy else p) l)
  = filter (fun p => negb (Project.id p =? Project.id copy)%string) l.
Proof.
  induction l as [|q l IH]; simpl; [reflexivity|].
  destruct (String.eqb_spec (Project.id q) (Project.id copy)) as [E|N]; simpl.
  - now rewrite String.eqb_refl.
  - destruct (String.eqb_spec (Project.id q) (Project.id copy)); [contradiction|].
    simpl. now rewrite IH.
Qed.

Lemma filter_other_id (i : string) (l : list Project) :
  (forall q, In q l -> Project.id q <> i) ->
  filter (fun p => negb (Project.id p =? i)%string) l = l.
Proof.
  induction l as [|q l IH]; intros H; simpl; [reflexivity|].
  destruct (String.eqb_spec (Project.id q) i) as [E|N].
  - destruct (H q (or_introl eq_refl) E).
  - simpl. f_equal. apply IH. intros r Hr. apply H. now right.
Qed.

(** X5. A confirmed [remove(id)] keeps exactly the projects with another id,
    in their order; declined, it keeps all.  Removing a project that was
    just saved gives the collection without that id, so a new project that
    is saved and then removed leaves the collection as it was. *)
Theorem remove_spec (id : string) (prev : list Project) :
  (forall p, In p (ProjectsPage_remove true id prev) <-> In p prev /\ Project.id p <> id)
  /\ ProjectsPage_remove false id prev = prev
  /\ (forall now st d,
        pp_draft st = Some d ->
        ProjectsPage_remove true (Project.id d) (pp_projects (saveDraft now st))
        = ProjectsPage_remove true (Project.id d) (pp_projects st))
  /\ (forall now st d,
        pp_draft st = Some d ->
        (forall q, In q (pp_projects st) -> Project.id q <> Project.id d) ->
        ProjectsPage_remove true (Project.id d) (pp_projects (saveDraft now st))
        = pp_projects st).
Proof.
  assert (Hsave : forall now st d,
             pp_draft st = Some d ->
             ProjectsPage_remove true (Project.id d) (pp_projects (saveDraft now st))
             = ProjectsPage_remove true (Project.id d) (pp_projects st)).
  { intros now st d Hd. rewrite (saveDraft_projects now st d Hd).
    unfold ProjectsPage_remove, upsert. rewrite <- (saved_id now d).
    destruct (existsb _ (pp_projects st)).
    - apply filter_replace_id.
    - simpl. now rewrite String.eqb_refl. }
  split; [|split; [|split]].
  - intros p. unfold ProjectsPage_remove. rewrite filter_In, negb_true_iff.
    destruct (String.eqb_spec (Project.id p) id); intuition congruence.
  - reflexivity.
  - exact Hsave.
  - intros now st d Hd Hnew. rewrite (Hsave now st d Hd).
    unfold ProjectsPage_remove. now apply filter_other_id.
Qed.

Lemma remove_spec_witness :
  let a := sample "a" "Alpha" "Main" 1 draft high [] 25 in
  let d := sample "n" "New" "Main" 2 draft medium [] 0 in
  let st := mkProjectsPageState [a] true (Some d) in
  ProjectsPage_remove true "n" (pp_projects (saveDraft 3 st)) = [a].
Proof.
  intros a d st.
  apply (proj2 (proj2 (proj2 (remove_spec "n" [a]))) 3 st d eq_refl).
  intros q [<- | []]. discriminate.
Defined.

Lemma consistent_upsert (copy : Project) (prev : list Project) :
  Project.progressPct copy = calcProgress (Project.checklist copy) ->
  consistent prev -> consistent (upsert copy prev).
Proof.
  unfold consistent, upsert. intros Hc Hprev.
  destruct (existsb _ prev).
  - rewrite Forall_forall in *. intros p Hp. apply in_map_iff in Hp.
    destruct Hp as [q [<- Hq]].
    destruct (Project.id q =? Project.id copy)%string; auto.
  - now constructor.
Qed.

(** X6. If every project of the collection carries the percentage of its own
    checklist, this is still so after [saveDraft], after [remove] and after
    any bulk action. *)
Theorem mutations_keep_progress_consistent (prev : list Project) :
  consistent prev ->
  (forall now showForm draft,
      consistent (pp_projects (saveDraft now (mkProjectsPageState prev showForm draft))))
  /\ (forall confirmed id, consistent (ProjectsPage_remove confirmed id prev))
  /\ (forall action ids confirmed now,
        consistent (fst (bulk action ids confirmed now prev))).
Proof.
  intros Hprev. split; [|split].
  - intros now sf [d|]; [|exact Hprev].
    rewrite (saveDraft_projects now (mkProjectsPageState prev sf (Some d)) d eq_refl). simpl.
    apply consistent_upsert; [reflexivity | exact Hprev].
  - intros confirmed id. unfold ProjectsPage_remove. destruct confirmed; [|exact Hprev].
    unfold consistent in *. rewrite Forall_forall in *. intros p Hp.
    apply filter_In in Hp. now apply Hprev.
  - intros action ids confirmed now. unfold consistent in *.
    rewrite Forall_forall in *. intros p Hp.
    destruct (bulk_keeps_progress action ids confirmed now prev p Hp)
      as [q [Hq [_ [Hc Hpct]]]].
    rewrite Hc, Hpct. now apply Hprev.
Qed.

Lemma mutations_keep_progress_consistent_witness :
  let a := sample "a" "Alpha" "Main" 1 draft high [] 0 in
  consistent (fst (bulk archive ["a"] true 4 [a])).
Proof.
  intros a.
  apply (proj2 (proj2 (mutations_keep_progress_consistent [a] ltac:(repeat constructor)))).
Defined.

(** ** Collations as orders *)

Section CollationFacts.

Variable lc : string -> string -> Z.
Hypothesis lc_sign : forall a b, lc a b < 0 <-> 0 < lc b a.
Hypothesis lc_zero : forall a b, lc a b = 0 -> a = b.
Hypothesis lc_trans : forall a b c, lc a b < 0 -> lc b c < 0 -> lc a c < 0.

Lemma lc_le_total (a b : string) : lc a b <= 0 \/ lc b a <= 0.
Proof.
  destruct (Z_le_gt_dec (lc a b) 0) as [L|G]; [now left | right].
  assert (lc b a < 0) by (apply lc_sign; lia). lia.
Qed.

Lemma lc_le_trans (a b c : string) : lc a b <= 0 -> lc b c <= 0 -> lc a c <= 0.
Proof.
  intros Hab Hbc.
  destruct (Z.eq_dec (lc a b) 0) as [E|N]; [apply lc_zero in E; now subst|].
  destruct (Z.eq_dec (lc b c) 0) as [E'|N']; [apply lc_zero in E'; now subst|].
  assert (lc a c < 0) by (apply (lc_trans a b c); lia). lia.
Qed.

End CollationFacts.

Lemma StronglySorted_app_inv {A : Type} (R : A -> A -> Prop) (l1 l2 : list A) :
  StronglySorted R (l1 ++ l2) ->
  StronglySorted R l1 /\ forall a b, In a l1 -> In b l2 -> R a b.
Proof.
  induction l1 as [|x l1 IH]; simpl; intros H.
  - split; [constructor | intros a b []].
  - inversion H as [|? ? Hs Hall]; subst. destruct (IH Hs) as [Hs1 Hx].
    rewrite Forall_forall in Hall. split.
    + constructor; [exact Hs1|]. rewrite Forall_forall. intros y Hy.
      apply Hall. apply in_or_app. now left.
    + intros a b [<- | Ha] Hb; [|now apply Hx].
      apply Hall. apply in_or_app. now right.
Qed.

(** ** Upcoming sessions *)

Lemma truthy_opt_Some (s : option string) :
  truthy_opt s = true <-> exists x, s = Some x /\ x <> "".
Proof.
  unfold truthy_opt, or_empty, falsy. destruct s as [x|]; simpl.
  - destruct (String.eqb_spec x "") as [->|N]; simpl.
    + split; [discriminate | intros [y [E Hy]]; congruence].
    + destruct (String.eqb_spec x ""); [contradiction|]. simpl.
      split; [intros _; now exists x | reflexivity].
  - split; [discriminate | intros [y [E _]]; discriminate].
Qed.

Lemma Dashboard_scheduled_In (ps : list Project) (p : Project) :
  In p (Dashboard_scheduled ps)
  <-> In p ps /\ Project.status p <> archived
      /\ exists x, Project.scheduledRecordAt p = Some x /\ x <> "".
Proof.
  unfold Dashboard_scheduled. rewrite !filter_In, truthy_opt_Some, negb_true_iff.
  destruct (Status_eqb (Project.status p) archived) eqn:E.
  - apply Status_eqb_eq in E. intuition congruence.
  - assert (Project.status p <> archived)
      by (intros H; apply Status_eqb_eq in H; congruence).
    intuition.
Qed.

(** X7. The dashboard shows at most five upcoming sessions; each of them is
    a project of the collection that is not archived and has a non-empty
    record date; and when at most five projects qualify, all of them are
    shown, each once per occurrence. *)
Theorem Dashboard_next_spec (lc : string -> string -> Z) (ps : list Project) :
  (List.length (Dashboard_next lc ps) <= 5)%nat
  /\ (forall p, In p (Dashboard_next lc ps) ->
        In p ps /\ Project.status p <> archived
        /\ exists x, Project.scheduledRecordAt p = Some x /\ x <> "")
  /\ ((List.length (Dashboard_scheduled ps) <= 5)%nat ->
      Permutation (Dashboard_next lc ps) (Dashboard_scheduled ps)).
Proof.
  unfold Dashboard_next. split; [|split].
  - rewrite length_firstn. lia.
  - intros p Hp. apply Dashboard_scheduled_In.
    apply (Permutation_in _ (sort_perm (cmp_recordAt lc) (Dashboard_scheduled ps))).
    rewrite <- (firstn_skipn 5 (sort _ _)). apply in_or_app. now left.
  - intros Hlen. rewrite firstn_all2; [apply sort_perm|].
    rewrite (Permutation_length (sort_perm _ _)). exact Hlen.
Qed.

Lemma Dashboard_next_spec_witness :
  let a := Project.mk "a" "A" "Main" 1 None None None active high []
             (Some "2024-05-06T07:08") None None None
             (mkChecklist false false false false) 0 0 0 in
  Permutation (Dashboard_next codeUnitCompare [a]) (Dashboard_scheduled [a]).
Proof.
  intros a.
  apply (proj2 (proj2 (Dashboard_next_spec codeUnitCompare [a]))).
  vm_compute. lia.
Defined.

Section UpcomingOrder.

Variable localeCompare : string -> string -> Z.
Hypothesis localeCompare_sign :
  forall a b, localeCompare a b < 0 <-> 0 < localeCompare b a.
Hypothesis localeCompare_zero :
  forall a b, localeCompare a b = 0 -> a = b.
Hypothesis localeCompare_trans :
  forall a b c, localeCompare a b < 0 -> localeCompare b c < 0 -> localeCompare a c < 0.

(** X8. For a collation that is a strict total order, the upcoming sessions
    are shown by ascending record date, and they are the earliest ones: the
    qualifying projects that are not shown come no earlier than any project
    shown. *)
Theorem Dashboard_next_earliest (ps : list Project) :
  StronglySorted (fun a b => cmp_recordAt localeCompare a b <= 0)
    (Dashboard_next localeCompare ps)
  /\ exists rest,
       Permutation (Dashboard_next localeCompare ps ++ rest) (Dashboard_scheduled ps)
       /\ forall a b, In a (Dashboard_next localeCompare ps) -> In b rest ->
            cmp_recordAt localeCompare a b <= 0.
Proof.
  unfold Dashboard_next.
  set (l := sort (cmp_recordAt localeCompare) (Dashboard_scheduled ps)).
  assert (Hs : StronglySorted (fun a b => cmp_recordAt localeCompare a b <= 0) l).
  { apply sort_ordered; unfold cmp_recordAt; intros.
    - now apply lc_le_total.
    - eapply (lc_le_trans localeCompare); eauto. }
  rewrite <- (firstn_skipn 5 l) in Hs.
  apply StronglySorted_app_inv in Hs. destruct Hs as [Hs1 Hcross].
  split; [exact Hs1|].
  exists (skipn 5 l). split; [|exact Hcross].
  rewrite firstn_skipn. apply sort_perm.
Qed.

End UpcomingOrder.

Lemma Dashboard_next_earliest_witness :
  let a := Project.mk "a" "A" "Main" 1 None None None active high []
             (Some "2024-05-06T07:08") None None None
             (mkChecklist false false false false) 0 0 0 in
  let b := Project.mk "b" "B" "Main" 2 None None None draft high []
             (Some "2024-01-01T09:00") None None None
             (mkChecklist false false false false) 0 0 0 in
  StronglySorted (fun x y => cmp_recordAt codeUnitCompare x y <= 0)
    (Dashboard_next codeUnitCompare [a; b]).
Proof.
  intros a b.
  exact (proj1 (Dashboard_next_earliest codeUnitCompare codeUnitCompare_sign
                  codeUnitCompare_zero codeUnitCompare_trans [a; b])).
Defined.

(** ** The series list *)

Lemma Set_add_In (seen : list string) (x s : string) :
  In s (Set_add seen x) <-> In s seen \/ s = x.
Proof.
  unfold Set_add. destruct (existsb (String.eqb x) seen) eqn:E.
  - apply existsb_exists in E. destruct E as [y [Hy E]].
    apply String.eqb_eq in E. subst y. intuition congruence.
  - rewrite in_app_iff. simpl. intuition.
Qed.

Lemma Set_add_NoDup (seen : list string) (x : string) :
  NoDup seen -> NoDup (Set_add seen x).
Proof.
  intros H. unfold Set_add. destruct (existsb (String.eqb x) seen) eqn:E; [exact H|].
  apply NoDup_app; [exact H | repeat constructor; intros [] |].
  intros y Hy [E' | []]. subst y.
  assert (existsb (String.eqb x) seen = true)
    by (apply existsb_exists; exists x; split; [exact Hy | apply String.eqb_refl]).
  congruence.
Qed.

Lemma fold_Set_add (xs seen : list string) :
  (forall s, In s (fold_left Set_add xs seen) <-> In s seen \/ In s xs)
  /\ (NoDup seen -> NoDup (fold_left Set_add xs seen)).
Proof.
  revert seen. induction xs as [|x xs IH]; intros seen; simpl.
  - split; [intros s; intuition | auto].
  - destruct (IH (Set_add seen x)) as [IHin IHnd]. split.
    + intros s. rewrite IHin, Set_add_In. intuition.
    + intros H. apply IHnd. now apply Set_add_NoDup.
Qed.

Lemma codeUnitCompare_le_total (a b : string) :
  codeUnitCompare a b <= 0 \/ codeUnitCompare b a <= 0.
Proof. apply lc_le_total. apply codeUnitCompare_sign. Qed.

Lemma codeUnitCompare_le_trans (a b c : string) :
  codeUnitCompare a b <= 0 -> codeUnitCompare b c <= 0 -> codeUnitCompare a c <= 0.
Proof.
  apply lc_le_trans.
  - apply codeUnitCompare_zero.
  - apply codeUnitCompare_trans.
Qed.

Lemma allSeries_In (ps : list Project) (s : string) :
  In s (allSeries ps) <-> exists p, In p ps /\ Project.series p = s.
Proof.
  unfold allSeries, Array_from_Set. split.
  - intros H. apply (Permutation_in _ (sort_perm _ _)) in H.
    apply (proj1 (fold_Set_add _ _)) in H. destruct H as [[] | H].
    apply in_map_iff in H. destruct H as [p [E Hp]]. now exists p.
  - intros [p [Hp E]].
    apply (Permutation_in _ (Permutation_sym (sort_perm _ _))).
    apply (proj1 (fold_Set_add _ _)). right. apply in_map_iff. now exists p.
Qed.

Lemma allSeries_NoDup (ps : list Project) : NoDup (allSeries ps).
Proof.
  unfold allSeries, Array_from_Set.
  apply (Permutation_NoDup (Permutation_sym (sort_perm _ _))).
  apply (proj2 (fold_Set_add _ _)). constructor.
Qed.

Lemma allSeries_sorted (ps : list Project) :
  StronglySorted (fun a b => codeUnitCompare a b <= 0) (allSeries ps).
Proof.
  unfold allSeries. apply sort_ordered.
  - apply codeUnitCompare_le_total.
  - apply codeUnitCompare_le_trans.
Qed.

(** X9. The series offered by the project form are exactly the series names
    the projects carry, each listed once, in ascending code-unit order. *)
Theorem allSeries_spec (ps : list Project) :
  (forall s, In s (allSeries ps) <-> exists p, In p ps /\ Project.series p = s)
  /\ NoDup (allSeries ps)
  /\ StronglySorted (fun a b => codeUnitCompare a b <= 0) (allSeries ps).
Proof.
  split; [apply allSeries_In|]. split; [apply allSeries_NoDup | apply allSeries_sorted].
Qed.

Lemma codeUnitCompare_empty (s : string) :
  codeUnitCompare s "" <= 0 -> s = "".
Proof. destruct s; [reflexivity | unfold codeUnitCompare; simpl; lia]. Qed.

(** X10. The series a new project starts in is never the empty string.  It
    is ["Main"] when there is no project or when some project has the empty
    series; otherwise it is the series name of some project, and the least
    of them in code-unit order. *)
Theorem defaultSeries_spec (ps : list Project) :
  defaultSeries ps <> ""
  /\ (ps = [] \/ (exists p, In p ps /\ Project.series p = "") -> defaultSeries ps = "Main")
  /\ (ps <> [] -> (forall p, In p ps -> Project.series p <> "") ->
      (exists p, In p ps /\ Project.series p = defaultSeries ps)
      /\ forall q, In q ps -> codeUnitCompare (defaultSeries ps) (Project.series q) <= 0).
Proof.
  pose proof (allSeries_In ps) as Hin. pose proof (allSeries_sorted ps) as Hsorted.
  unfold defaultSeries in *. split; [|split].
  - destruct (allSeries ps) as [|s rest]; [discriminate|].
    unfold falsy. destruct (String.eqb_spec s ""); [discriminate | assumption].
  - intros [-> | [p [Hp E]]]; [reflexivity|].
    destruct (allSeries ps) as [|s rest] eqn:Ea; [reflexivity|].
    assert (Hmem : In "" (s :: rest)) by (apply Hin; now exists p).
    assert (Hs : s = "").
    { destruct Hmem as [E' | Hr]; [exact E'|].
      inversion Hsorted as [|? ? _ Hall]; subst. rewrite Forall_forall in Hall.
      apply codeUnitCompare_empty. now apply Hall. }
    subst s. reflexivity.
  - intros Hne Hnonempty.
    destruct (allSeries ps) as [|s rest] eqn:Ea.
    + destruct ps as [|p ps']; [congruence|].
      assert (In (Project.series p) []) as []. apply Hin. exists p. split; [now left | reflexivity].
    + assert (Hs : exists p, In p ps /\ Project.series p = s) by (apply Hin; now left).
      assert (Hf : falsy s = false).
      { unfold falsy. destruct (String.eqb_spec s ""); [|reflexivity].
        destruct Hs as [p [Hp E]]. subst s. destruct (Hnonempty p Hp). assumption. }
      rewrite Hf. split; [exact Hs|].
      intros q Hq.
      assert (Hmem : In (Project.series q) (s :: rest)) by (apply Hin; now exists q).
      destruct Hmem as [<- | Hr].
      * unfold codeUnitCompare. rewrite String_compare_refl. lia.
      * inversion Hsorted as [|? ? _ Hall]; subst. rewrite Forall_forall in Hall.
        now apply Hall.
Qed.

Lemma defaultSeries_spec_witness :
  let ps := [sample "1" "T1" "Main" 2 draft high [] 0;
             sample "2" "T2" "Guest Series" 1 active low [] 0] in
  exists p, In p ps /\ Project.series p = defaultSeries ps.
Proof.
  intros ps.
  apply (proj2 (proj2 (defaultSeries_spec ps))).
  - discriminate.
  - intros p [<- | [<- | []]]; discriminate.
Defined.

(** ** The project form: checklist and tags *)

(** X11. The percentage is 100 exactly when all four boxes are ticked and 0
    exactly when none is; ticking boxes never lowers it. *)
Theorem calcProgress_extremes (c : Checklist) :
  (calcProgress c = 100
   <-> research c = true /\ questions c = true /\ equipment c = true /\ thumbnails c = true)
  /\ (calcProgress c = 0
      <-> research c = false /\ questions c = false /\ equipment c = false
          /\ thumbnails c = false)
  /\ (forall c' : Checklist,
        (research c = true -> research c' = true) ->
        (questions c = true -> questions c' = true) ->
        (equipment c = true -> equipment c' = true) ->
        (thumbnails c = true -> thumbnails c' = true) ->
        calcProgress c <= calcProgress c').
Proof.
  split; [|split].
  - destruct c as [[] [] [] []]; vm_compute; intuition congruence.
  - destruct c as [[] [] [] []]; vm_compute; intuition congruence.
  - intros c' H1 H2 H3 H4. rewrite !calcProgress_quarters. unfold trueCount.
    destruct c as [r q e t], c' as [r' q' e' t']; simpl in *.
    assert (Z.b2z r <= Z.b2z r')
      by (destruct r, r'; simpl; try lia; discriminate (H1 eq_refl)).
    assert (Z.b2z q <= Z.b2z q')
      by (destruct q, q'; simpl; try lia; discriminate (H2 eq_refl)).
    assert (Z.b2z e <= Z.b2z e')
      by (destruct e, e'; simpl; try lia; discriminate (H3 eq_refl)).
    assert (Z.b2z t <= Z.b2z t')
      by (destruct t, t'; simpl; try lia; discriminate (H4 eq_refl)).
    lia.
Qed.

Lemma calcProgress_extremes_witness :
  calcProgress (mkChecklist true false false false)
  <= calcProgress (mkChecklist true false true false).
Proof.
  apply (proj2 (proj2 (calcProgress_extremes (mkChecklist true false false false))));
    simpl; congruence.
Defined.

(** X12. Changing one box of the draft moves the percentage that the next
    save stores by 25 up (a box newly ticked), 25 down (a box unticked) or
    not at all; until that save the draft keeps its old [progressPct], and
    no other field of the draft changes. *)
Theorem setChecklist_one_box (now : Z) (d : Project) (b : bool) :
  let c := Project.checklist d in
  Project.progressPct (saved now (setChecklist (mkChecklistPatch (Some b) None None None) d))
  = calcProgress c + 25 * (Z.b2z b - Z.b2z (research c))
  /\ Project.progressPct (saved now (setChecklist (mkChecklistPatch None (Some b) None None) d))
     = calcProgress c + 25 * (Z.b2z b - Z.b2z (questions c))
  /\ Project.progressPct (saved now (setChecklist (mkChecklistPatch None None (Some b) None) d))
     = calcProgress c + 25 * (Z.b2z b - Z.b2z (equipment c))
  /\ Project.progressPct (saved now (setChecklist (mkChecklistPatch None None None (Some b)) d))
     = calcProgress c + 25 * (Z.b2z b - Z.b2z (thumbnails c))
  /\ (forall patch,
        Project.progressPct (setChecklist patch d) = Project.progressPct d
        /\ with_checklist c (setChecklist patch d) = d).
Proof.
  intros c. subst c. destruct d as [i t s ep de bn an st pr tg ra pa du gu c pct ca ua].
  destruct c as [r q e th]. simpl.
  repeat split; try (rewrite !calcProgress_quarters; unfold trueCount; simpl;
                     destruct b, r, q, e, th; simpl; lia).
Qed.

(** ** Trimming *)

Lemma trimStart_head (s : string) (c : ascii) (r : string) :
  trimStart s = String c r -> isWhiteSpace c = false.
Proof.
  induction s as [|a s IH]; simpl; [discriminate|].
  destruct (isWhiteSpace a) eqn:E; [exact IH|].
  intros H. injection H as -> _. exact E.
Qed.

Lemma trimEnd_head (c : ascii) (s : string) :
  isWhiteSpace c = false -> exists r, trimEnd (String c s) = String c r.
Proof.
  intros H. simpl. rewrite H. destruct (trimEnd s); eauto.
Qed.

Lemma trimEnd_idem (s : string) : trimEnd (trimEnd s) = trimEnd s.
Proof.
  induction s as [|c s IH]; simpl; [reflexivity|].
  destruct (trimEnd s) as [|a r] eqn:E.
  - destruct (isWhiteSpace c) eqn:W; simpl; [reflexivity | now rewrite W].
  - cbn [trimEnd]. cbn [trimEnd] in IH. rewrite IH. reflexivity.
Qed.

Lemma trim_idem (s : string) : trim (trim s) = trim s.
Proof.
  unfold trim.
  assert (H : trimStart (trimEnd (trimStart s)) = trimEnd (trimStart s)).
  { destruct (trimStart s) as [|c r] eqn:E; [reflexivity|].
    pose proof (trimStart_head s c r E) as W.
    destruct (trimEnd_head c r W) as [r' Hr]. rewrite Hr. simpl. now rewrite W. }
  rewrite H. apply trimEnd_idem.
Qed.

Lemma trimStart_chars (s : string) (c : ascii) :
  In c (list_ascii_of_string (trimStart s)) -> In c (list_ascii_of_string s).
Proof.
  induction s as [|a s IH]; simpl; [auto|].
  destruct (isWhiteSpace a); simpl; auto.
Qed.

Lemma trimEnd_chars (s : string) (c : ascii) :
  In c (list_ascii_of_string (trimEnd s)) -> In c (list_ascii_of_string s).
Proof.
  induction s as [|a s IH]; simpl; [auto|].
  destruct (trimEnd s) as [|b r].
  - destruct (isWhiteSpace a); simpl; intuition.
  - simpl in *. intuition.
Qed.

Lemma trim_chars (s : string) (c : ascii) :
  In c (list_ascii_of_string (trim s)) -> In c (list_ascii_of_string s).
Proof. intros H. apply trimStart_chars, trimEnd_chars. exact H. Qed.

Lemma split_pieces (sep : ascii) (s : string) (piece : string) :
  In piece (split sep s) -> ~ In sep (list_ascii_of_string piece).
Proof.
  revert piece. induction s as [|c s IH]; simpl; intros piece H.
  - destruct H as [<- | []]. simpl. tauto.
  - destruct (Ascii.eqb_spec c sep) as [E|N].
    + destruct H as [<- | H]; [simpl; tauto | now apply IH].
    + destruct (split sep s) as [|p rest].
      * destruct H as [<- | []]. simpl. intuition.
      * destruct H as [<- | H].
        -- simpl. intros [E | Hin]; [congruence|].
           apply (IH p); [now left | exact Hin].
        -- apply IH. now right.
Qed.

(** X13. The "Add" button of the tag box appends to the tags of the draft and
    touches nothing else: a blank box adds nothing and is left as it is;
    otherwise the box is emptied and every tag added is non-empty, has no
    white space at either end and contains no comma. *)
Theorem addTags_spec (tagInput : string) (d : Project) :
  (blank tagInput -> addTags tagInput d = (d, tagInput))
  /\ (~ blank tagInput ->
      exists added,
        addTags tagInput d = (with_tags (Project.tags d ++ added) d, "")
        /\ Forall (fun t => t <> "" /\ trim t = t
                            /\ ~ In ","%char (list_ascii_of_string t)) added).
Proof.
  unfold addTags. split.
  - intros H. apply falsy_trim in H. now rewrite H.
  - intros H. destruct (falsy (trim tagInput)) eqn:E.
    { apply falsy_trim in E. contradiction. }
    eexists. split; [reflexivity|].
    rewrite Forall_forall. intros t Ht. apply filter_In in Ht.
    destruct Ht as [Ht Hne]. apply in_map_iff in Ht. destruct Ht as [piece [<- Hp]].
    split; [|split].
    + unfold falsy in Hne. destruct (String.eqb_spec (trim piece) ""); [discriminate | assumption].
    + apply trim_idem.
    + intros Hc. apply trim_chars in Hc. exact (split_pieces _ _ _ Hp Hc).
Qed.

Lemma addTags_spec_witness :
  let d := sample "a" "Alpha" "Main" 1 draft high ["news"] 25 in
  exists added,
    addTags " tech, ,audio " d = (with_tags (Project.tags d ++ added) d, "")
    /\ Forall (fun t => t <> "" /\ trim t = t
                        /\ ~ In ","%char (list_ascii_of_string t)) added.
Proof.
  intros d. apply (proj2 (addTags_spec " tech, ,audio " d)).
  intros H. inversion H as [|? ? _ Ht]. inversion Ht as [|? ? Hc _]. discriminate Hc.
Defined.

Lemma filter_index_past (idx k : nat) (l : list string) :
  (idx < k)%nat -> filter_index (fun i => negb (i =? idx)%nat) k l = l.
Proof.
  revert k. induction l as [|x l IH]; intros k Hk; simpl; [reflexivity|].
  destruct (Nat.eqb_spec k idx); [lia|]. simpl. f_equal. apply IH. lia.
Qed.

Lemma filter_index_from (idx k : nat) (l : list string) :
  (k <= idx)%nat ->
  filter_index (fun i => negb (i =? idx)%nat) k l
  = firstn (idx - k) l ++ skipn (S (idx - k)) l.
Proof.
  revert k. induction l as [|x l IH]; intros k Hk; simpl.
  - now rewrite firstn_nil.
  - destruct (Nat.eqb_spec k idx) as [->|N]; simpl.
    + rewrite Nat.sub_diag. simpl. apply filter_index_past. lia.
    + rewrite (IH (S k)) by lia.
      replace (idx - k)%nat with (S (idx - S k)) by lia. reflexivity.
Qed.

(** X14. The cross next to a tag removes the tag at that position and only
    it: the tags before and after stay in order; a position past the end
    removes nothing. *)
Theorem removeTag_spec (idx : nat) (d : Project) :
  Project.tags (removeTag idx d)
  = firstn idx (Project.tags d) ++ skipn (S idx) (Project.tags d)
  /\ with_tags (Project.tags d) (removeTag idx d) = d
  /\ ((List.length (Project.tags d) <= idx)%nat -> removeTag idx d = d).
Proof.
  assert (E : Project.tags (removeTag idx d)
              = firstn idx (Project.tags d) ++ skipn (S idx) (Project.tags d)).
  { unfold removeTag. simpl. rewrite filter_index_from by lia. now rewrite Nat.sub_0_r. }
  split; [exact E|]. split.
  - destruct d. reflexivity.
  - intros Hlen. unfold removeTag. rewrite filter_index_from by lia.
    rewrite Nat.sub_0_r, firstn_all2, skipn_all2, app_nil_r by lia.
    destruct d. reflexivity.
Qed.

Lemma removeTag_spec_witness :
  let d := sample "a" "Alpha" "Main" 1 draft high ["news"; "tech"] 25 in
  removeTag 2 d = d.
Proof.
  intros d. apply (proj2 (proj2 (removeTag_spec 2 d))). simpl. lia.
Defined.

(** ** The team roster *)

Lemma email_not_stored (email : string) (us : list User) :
  existsb (fun u => (toLowerCase (User.email u) =? toLowerCase email)%string) us = false ->
  ~ In (toLowerCase email) (map emailKey us).
Proof.
  intros H Hin. apply in_map_iff in Hin. destruct Hin as [u [E Hu]].
  assert (existsb (fun u => (toLowerCase (User.email u) =? toLowerCase email)%string) us = true).
  { apply existsb_exists. exists u. split; [exact Hu | now apply String.eqb_eq]. }
  congruence.
Qed.

Lemma NoDup_snoc {A : Type} (l : list A) (x : A) :
  NoDup l -> ~ In x l -> NoDup (l ++ [x]).
Proof.
  intros Hl Hx. induction Hl as [|y l Hy Hl IH]; simpl.
  - constructor; [intros [] | constructor].
  - constructor.
    + rewrite in_app_iff. simpl. intros [H | [H | []]]; [contradiction|].
      apply Hx. now left.
    + apply IH. intros H. apply Hx. now right.
Qed.

Lemma NoDup_map_filter {A B : Type} (f : A -> B) (keep : A -> bool) (l : list A) :
  NoDup (map f l) -> NoDup (map f (filter keep l)).
Proof.
  induction l as [|x l IH]; simpl; intros H; [constructor|].
  inversion H as [|? ? Hx Hl]; subst.
  destruct (keep x); simpl; [|now apply IH].
  constructor; [|now apply IH].
  intros Hin. apply Hx. apply in_map_iff in Hin. destruct Hin as [y [E Hy]].
  apply filter_In in Hy. apply in_map_iff. exists y. tauto.
Qed.

Lemma promote_emailKey (id : string) (role : Role) (us : list User) :
  map emailKey (TeamPage_promote id role us) = map emailKey us.
Proof.
  unfold TeamPage_promote. rewrite map_map. apply map_ext.
  intros u. now destruct (User.id u =? id)%string.
Qed.

(** X15. If the stored emails are pairwise different up to case, they still
    are after adding a team member, after a login, after removing a user and
    after changing a role. *)
Theorem users_emails_stay_distinct (us : list User) :
  NoDup (map emailKey us) ->
  (forall fresh now name email,
      NoDup (map emailKey
               (team_users (fst (TeamPage_add fresh now (mkTeamPageState us name email))))))
  /\ (forall fresh now email name session,
        NoDup (map emailKey
                 (users (fst (handleLogin fresh now email name (mkAppState us session))))))
  /\ (forall confirmed id, NoDup (map emailKey (TeamPage_del confirmed id us)))
  /\ (forall id role, NoDup (map emailKey (TeamPage_promote id role us))).
Proof.
  intros Hnd. split; [|split; [|split]].
  - intros fresh now name email. unfold TeamPage_add. simpl.
    destruct (falsy (trim name) || falsy (trim email)); [exact Hnd|].
    destruct (existsb _ us) eqn:E; [exact Hnd|]. simpl.
    rewrite map_app. simpl. apply NoDup_snoc; [exact Hnd|].
    now apply email_not_stored.
  - intros fresh now email name session. unfold handleLogin. simpl.
    destruct (falsy (trim email)); [exact Hnd|].
    destruct (find _ us) as [u|] eqn:E; [exact Hnd|]. simpl.
    rewrite map_app. simpl. apply NoDup_snoc; [exact Hnd|].
    intros Hin. apply in_map_iff in Hin. destruct Hin as [u [Eu Hu]].
    pose proof (find_none _ _ E u Hu) as Hf. simpl in Hf.
    unfold emailKey in Eu. rewrite Eu, String.eqb_refl in Hf. discriminate.
  - intros confirmed id. unfold TeamPage_del. destruct confirmed; [|exact Hnd].
    now apply NoDup_map_filter.
  - intros id role. now rewrite promote_emailKey.
Qed.

Lemma users_emails_stay_distinct_witness :
  let us := [User.mk "u1" "Admin" "admin@example.com" admin 0] in
  NoDup (map emailKey
           (team_users (fst (TeamPage_add "u2" 5 (mkTeamPageState us "Ann" "ADMIN@example.com"))))).
Proof.
  intros us.
  apply (proj1 (users_emails_stay_distinct us ltac:(repeat constructor; intros []))).
Defined.

(** X16. With a name and an email that are not blank, adding a team member
    either finds the email already stored up to case, alerts and changes
    nothing, or appends one [member] under the given name and email and
    clears the two boxes. *)
Theorem TeamPage_add_spec (fresh : string) (now : Z) (st : TeamPageState) :
  ~ blank (team_name st) ->
  ~ blank (team_email st) ->
  ((exists u, In u (team_users st) /\ emailKey u = toLowerCase (team_email st)) ->
   TeamPage_add fresh now st = (st, Some "Email already exists."))
  /\ ((forall u, In u (team_users st) -> emailKey u <> toLowerCase (team_email st)) ->
      TeamPage_add fresh now st
      = (mkTeamPageState
           (team_users st ++ [User.mk fresh (team_name st) (team_email st) member now])
           "" "",
         None)).
Proof.
  intros Hn He. unfold TeamPage_add.
  destruct (falsy (trim (team_name st))) eqn:Fn; [apply falsy_trim in Fn; contradiction|].
  destruct (falsy (trim (team_email st))) eqn:Fe; [apply falsy_trim in Fe; contradiction|].
  simpl. split.
  - intros [u [Hu E]].
    assert (Hex : existsb (fun u => (toLowerCase (User.email u)
                                     =? toLowerCase (team_email st))%string)
                    (team_users st) = true).
    { apply existsb_exists. exists u. split; [exact Hu | now apply String.eqb_eq]. }
    now rewrite Hex.
  - intros Hnew.
    destruct (existsb _ (team_users st)) eqn:Hex; [|reflexivity].
    apply existsb_exists in Hex. destruct Hex as [u [Hu E]].
    apply String.eqb_eq in E. destruct (Hnew u Hu E).
Qed.

Lemma TeamPage_add_spec_witness :
  let st := mkTeamPageState [User.mk "u1" "Admin" "admin@example.com" admin 0]
              "Ann" "Admin@Example.com" in
  TeamPage_add "u2" 5 st = (st, Some "Email already exists.").
Proof.
  intros st. apply (proj1 (TeamPage_add_spec "u2" 5 st
                             ltac:(intros H; inversion H as [|? ? Hc _]; discriminate Hc)
                             ltac:(intros H; inversion H as [|? ? Hc _]; discriminate Hc))).
  eexists. split; [now left | reflexivity].
Defined.

(** X17. Removing a user, once confirmed, keeps exactly the users with
    another id.  Changing a role keeps the roster as long as it was and in
    its order, changes only the role of the users under that id, and the
    last of two changes for the same id is the one that counts. *)
Theorem TeamPage_del_promote_spec (id : string) (us : list User) :
  (forall u, In u (TeamPage_del true id us) <-> In u us /\ User.id u <> id)
  /\ TeamPage_del false id us = us
  /\ (forall role i u,
        nth_error us i = Some u ->
        nth_error (TeamPage_promote id role us) i
        = Some (if (User.id u =? id)%string
                then User.mk (User.id u) (User.name u) (User.email u) role (User.createdAt u)
                else u))
  /\ (forall r1 r2,
        TeamPage_promote id r2 (TeamPage_promote id r1 us) = TeamPage_promote id r2 us)
  /\ (forall role, List.length (TeamPage_promote id role us) = List.length us).
Proof.
  split; [|split; [|split; [|split]]].
  - intros u. unfold TeamPage_del. rewrite filter_In, negb_true_iff.
    destruct (String.eqb_spec (User.id u) id); intuition congruence.
  - reflexivity.
  - intros role i u Hu. unfold TeamPage_promote. now rewrite nth_error_map, Hu.
  - intros r1 r2. unfold TeamPage_promote. rewrite map_map. apply map_ext.
    intros u. destruct (User.id u =? id)%string eqn:E; simpl; now rewrite E.
  - intros role. apply length_map.
Qed.

Lemma TeamPage_del_promote_spec_witness :
  let a := User.mk "u1" "Admin" "admin@example.com" admin 0 in
  let b := User.mk "u2" "Ann" "ann@example.com" member 1 in
  nth_error (TeamPage_promote "u2" admin [a; b]) 1
  = Some (User.mk "u2" "Ann" "ann@example.com" admin 1).
Proof.
  intros a b.
  apply (proj1 (proj2 (proj2 (TeamPage_del_promote_spec "u2" [a; b]))) admin 1%nat b eq_refl).
Defined.

(** ** Session *)

Lemma find_by_id (us : list User) (u : User) :
  NoDup (map User.id us) -> In u us ->
  find (fun x => (User.id x =? User.id u)%string) us = Some u.
Proof.
  induction us as [|x us IH]; simpl; intros Hnd Hin; [destruct Hin|].
  inversion Hnd as [|? ? Hx Hrest]; subst.
  destruct (String.eqb_spec (User.id x) (User.id u)) as [E|N].
  - destruct Hin as [-> | Hin]; [reflexivity|].
    destruct Hx. rewrite E. now apply in_map.
  - destruct Hin as [-> | Hin]; [congruence | now apply IH].
Qed.

Lemma find_snoc_fresh (us : list User) (u : User) :
  ~ In (User.id u) (map User.id us) ->
  find (fun x => (User.id x =? User.id u)%string) (us ++ [u]) = Some u.
Proof.
  induction us as [|x us IH]; simpl; intros H.
  - now rewrite String.eqb_refl.
  - destruct (String.eqb_spec (User.id x) (User.id u)) as [E|N].
    + destruct H. now left.
    + apply IH. intros Hin. apply H. now right.
Qed.

(** X18. After a logout nobody is signed in and the users are untouched.
    After a login with an email that is not blank, when the stored ids are
    pairwise different and the new id is none of them, the signed-in user is
    one of the users and carries the typed email up to case. *)
Theorem login_sets_currentUser :
  (forall st, currentUser (handleLogout st) = None /\ users (handleLogout st) = users st)
  /\ (forall fresh now email name st,
        ~ blank email ->
        NoDup (map User.id (users st)) ->
        ~ In fresh (map User.id (users st)) ->
        exists u,
          currentUser (fst (handleLogin fresh now email name st)) = Some u
          /\ In u (users (fst (handleLogin fresh now email name st)))
          /\ emailKey u = toLowerCase email).
Proof.
  split; [intros st; split; reflexivity|].
  intros fresh now email name st Hnb Hnd Hfresh. unfold handleLogin.
  destruct (falsy (trim email)) eqn:F; [apply falsy_trim in F; contradiction|].
  destruct (find _ (users st)) as [u|] eqn:E.
  - apply find_some in E. destruct E as [Hu E]. apply String.eqb_eq in E.
    exists u. unfold currentUser. simpl. split; [now apply find_by_id|]. split; assumption.
  - eexists. unfold currentUser. simpl. split; [|split].
    + apply (find_snoc_fresh (users st)
               (User.mk fresh (loginName name email) email member now)). exact Hfresh.
    + apply in_or_app. right. now left.
    + reflexivity.
Qed.

Lemma login_sets_currentUser_witness :
  let st := mkAppState [User.mk "u1" "Admin" "admin@example.com" admin 0] None in
  exists u,
    currentUser (fst (handleLogin "u2" 9 "ADMIN@example.com" None st)) = Some u
    /\ In u (users (fst (handleLogin "u2" 9 "ADMIN@example.com" None st)))
    /\ emailKey u = toLowerCase "ADMIN@example.com".
Proof.
  intros st.
  apply (proj2 login_sets_currentUser "u2" 9 "ADMIN@example.com" None st).
  - intros H. inversion H as [|? ? Hc _]. discriminate Hc.
  - repeat constructor. intros [].
  - intros [H | []]. discriminate H.
Defined.

(** ** The seeded administrator *)

(** X19. After [ensureSeedAdmin] some user is stored.  Users that were
    stored are left as they are; when none was (nothing stored, unparsable
    text, or an empty list) the store holds the administrator alone, under
    [admin@example.com]; seeding twice is seeding once. *)
Theorem ensureSeedAdmin_spec (fresh : string) (now : Z) (stored : option (list User)) :
  (exists u us, ensureSeedAdmin fresh now stored = Some (u :: us))
  /\ (forall u us, stored = Some (u :: us) -> ensureSeedAdmin fresh now stored = stored)
  /\ (stored = None \/ stored = Some [] ->
      ensureSeedAdmin fresh now stored
      = Some [User.mk fresh "Admin" "admin@example.com" admin now])
  /\ (forall fresh2 now2,
        ensureSeedAdmin fresh2 now2 (ensureSeedAdmin fresh now stored)
        = ensureSeedAdmin fresh now stored).
Proof.
  unfold ensureSeedAdmin. split; [|split; [|split]].
  - destruct stored as [[|u us]|]; simpl; eauto.
  - intros u us ->. reflexivity.
  - intros [-> | ->]; reflexivity.
  - intros fresh2 now2. destruct stored as [[|u us]|]; reflexivity.
Qed.

Lemma ensureSeedAdmin_spec_witness :
  ensureSeedAdmin "u1" 3 (Some [])
  = Some [User.mk "u1" "Admin" "admin@example.com" admin 3].
Proof.
  apply (proj1 (proj2 (proj2 (ensureSeedAdmin_spec "u1" 3 (Some []))))). now right.
Defined.

Lemma lower_a_not_blank (email : string) :
  toLowerCase email = "admin@example.com" -> ~ blank email.
Proof.
  destruct email as [|c r]; simpl; [discriminate|].
  intros H Hb. apply blank_cons in Hb. destruct Hb as [Hw _].
  injection H as Hc _.
  destruct c as [[] [] [] [] [] [] [] []]; vm_compute in Hc, Hw; congruence.
Qed.

(** X20. On a store without users the seeded administrator can sign in:
    a login under [admin@example.com], in any mix of cases, adds no user and
    signs in the seeded record, whose role is [admin]. *)
Theorem seeded_admin_can_login (fresh : string) (now : Z) (fresh2 : string) (now2 : Z)
    (email : string) (name : option string) (stored : option (list User))
    (session : option string) :
  stored = None \/ stored = Some [] ->
  toLowerCase email = "admin@example.com" ->
  let st := initialState (ensureSeedAdmin fresh now stored) session in
  handleLogin fresh2 now2 email name st = (mkAppState (users st) (Some fresh), None)
  /\ currentUser (fst (handleLogin fresh2 now2 email name st))
     = Some (User.mk fresh "Admin" "admin@example.com" admin now).
Proof.
  intros Hs He st.
  assert (Hst : st = mkAppState [User.mk fresh "Admin" "admin@example.com" admin now] session).
  { subst st. destruct Hs as [-> | ->]; reflexivity. }
  rewrite Hst. unfold handleLogin.
  destruct (falsy (trim email)) eqn:F.
  { apply falsy_trim in F. destruct (lower_a_not_blank email He F). }
  cbn [users find User.email]. rewrite He.
  change (toLowerCase "admin@example.com") with "admin@example.com".
  rewrite String.eqb_refl. split; [reflexivity|].
  unfold currentUser. simpl. now rewrite String.eqb_refl.
Qed.

Lemma seeded_admin_can_login_witness :
  handleLogin "u2" 8 "Admin@Example.COM" (Some "Bob")
    (initialState (ensureSeedAdmin "u1" 3 None) None)
  = (mkAppState (users (initialState (ensureSeedAdmin "u1" 3 None) None)) (Some "u1"), None).
Proof.
  apply (proj1 (seeded_admin_can_login "u1" 3 "u2" 8 "Admin@Example.COM" (Some "Bob")
                  None None (or_introl eq_refl) eq_refl)).
Defined.

(** ** Guests *)

(** X21. Saving a guest whose name is not blank closes the form without an
    alert and is an upsert on the guest id: with no guest under that id the
    guest is put in front; otherwise the collection keeps its length and
    order and the guests under that id are replaced by the saved one.
    Deleting the saved guest afterwards leaves the collection without that
    id. *)
Theorem GuestsPage_save_spec (st : GuestsPageState) (g0 : Guest) :
  g st = Some g0 ->
  ~ blank (Guest.name g0) ->
  let st' := fst (GuestsPage_save st) in
  snd (GuestsPage_save st) = None /\ g st' = None /\ show st' = false
  /\ ((forall x, In x (guests st) -> Guest.id x <> Guest.id g0) ->
      guests st' = g0 :: guests st)
  /\ ((exists x, In x (guests st) /\ Guest.id x = Guest.id g0) ->
      List.length (guests st') = List.length (guests st)
      /\ forall i x, nth_error (guests st) i = Some x ->
           nth_error (guests st') i
           = Some (if (Guest.id x =? Guest.id g0)%string then g0 else x))
  /\ GuestsPage_del true (Guest.id g0) (guests st')
     = GuestsPage_del true (Guest.id g0) (guests st).
Proof.
  intros Hg Hnb st'. subst st'. unfold GuestsPage_save. rewrite Hg.
  destruct (falsy (trim (Guest.name g0))) eqn:F; [apply falsy_trim in F; contradiction|].
  cbn [fst snd guests g show].
  split; [reflexivity|]. split; [reflexivity|]. split; [reflexivity|].
  split; [|split].
  - intros Hnew. destruct (existsb _ (guests st)) eqn:E; [|reflexivity].
    apply existsb_exists in E. destruct E as [x [Hx E]].
    apply String.eqb_eq in E. destruct (Hnew x Hx E).
  - intros [x0 [Hx0 E0]].
    assert (E : existsb (fun x => (Guest.id x =? Guest.id g0)%string) (guests st) = true).
    { apply existsb_exists. exists x0. split; [exact Hx0 | now apply String.eqb_eq]. }
    rewrite E. split; [apply length_map|].
    intros i x Hx. now rewrite nth_error_map, Hx.
  - unfold GuestsPage_del. destruct (existsb _ (guests st)).
    + induction (guests st) as [|x l IH]; simpl; [reflexivity|].
      destruct (String.eqb_spec (Guest.id x) (Guest.id g0)) as [E|N]; simpl.
      * now rewrite String.eqb_refl.
      * destruct (String.eqb_spec (Guest.id x) (Guest.id g0)); [contradiction|].
        simpl. now rewrite IH.
    + simpl. now rewrite String.eqb_refl.
Qed.

Lemma GuestsPage_save_spec_witness :
  let g0 := Guest.mk "g1" "Ada" None None None None None None None None 0 in
  let st := mkGuestsPageState [] (Some g0) true in
  guests (fst (GuestsPage_save st)) = [g0].
Proof.
  intros g0 st.
  apply (proj1 (proj2 (proj2 (proj2 (GuestsPage_save_spec st g0 eq_refl
     ltac:(intros H; inversion H as [|? ? Hc _]; discriminate Hc)))))).
  intros x [].
Defined.

(** ** Calendar export *)

Lemma chars_app (a b : string) :
  list_ascii_of_string (a ++ b) = list_ascii_of_string a ++ list_ascii_of_string b.
Proof. induction a as [|c a IH]; simpl; [reflexivity | now rewrite IH]. Qed.

Lemma chars_inj (a b : string) :
  list_ascii_of_string a = list_ascii_of_string b -> a = b.
Proof.
  intros H. rewrite <- (string_of_list_ascii_of_string a), H.
  apply string_of_list_ascii_of_string.
Qed.

Lemma ics_uid_inj (p p' : Project) (kind kind' : IcsKind) :
  ics_uid p kind = ics_uid p' kind' -> Project.id p = Project.id p' /\ kind = kind'.
Proof.
  unfold ics_uid. intros H. apply (f_equal list_ascii_of_string) in H.
  rewrite !chars_app in H. apply app_inv_head in H.
  apply (f_equal (@rev ascii)) in H. rewrite !rev_app_distr in H.
  destruct kind, kind'; simpl in H; try discriminate.
  - split; [|reflexivity]. apply chars_inj. apply rev_inj.
    repeat (injection H as H). exact H.
  - split; [|reflexivity]. apply chars_inj. apply rev_inj.
    repeat (injection H as H). exact H.
Qed.

(** X22. The calendar export offers nothing exactly when the date asked for
    is missing or empty.  Two exports offered under the same file name are
    exports of the same project id and the same kind of date. *)
Theorem makeIcs_spec (p : Project) (kind : IcsKind) :
  (makeIcs p kind = None
   <-> or_empty (match kind with
                 | kind_record => Project.scheduledRecordAt p
                 | kind_publish => Project.scheduledPublishAt p
                 end) = "")
  /\ (forall p' kind' name body body',
        makeIcs p kind = Some (name, body) ->
        makeIcs p' kind' = Some (name, body') ->
        Project.id p = Project.id p' /\ kind = kind').
Proof.
  split.
  - unfold makeIcs, truthy_opt, falsy.
    destruct (String.eqb_spec
                (or_empty match kind with
                          | kind_record => Project.scheduledRecordAt p
                          | kind_publish => Project.scheduledPublishAt p
                          end) "") as [E|N]; simpl.
    + tauto.
    + split; [discriminate | contradiction].
  - intros p' kind' name body body'. unfold makeIcs.
    destruct (negb (truthy_opt _)); [discriminate|].
    destruct (negb (truthy_opt _)); [discriminate|].
    intros H1 H2. injection H1 as H1 _. injection H2 as H2 _.
    apply ics_uid_inj. apply chars_inj.
    apply (app_inv_tail (list_ascii_of_string ".ics")).
    rewrite <- !chars_app. congruence.
Qed.

Lemma makeIcs_spec_witness :
  let p := Project.mk "p1" "Pilot" "Main" 12 None None None draft medium []
             (Some "2024-05-06T07:08") (Some "2024-06-01T10:00") None None
             (mkChecklist false false false false) 0 0 0 in
  Project.id p = Project.id p /\ kind_record = kind_record.
Proof.
  intros p.
  apply (proj2 (makeIcs_spec p kind_record) p kind_record
           "studiocast-p1-record.ics" _ _ eq_refl eq_refl).
Defined.

Lemma replace_first_same (a : ascii) (s : string) : replace_first a a s = s.
Proof.
  induction s as [|c s IH]; simpl; [reflexivity|].
  destruct (Ascii.eqb_spec c a) as [->|N]; [reflexivity | now rewrite IH].
Qed.

Lemma strip_app (a b : string) :
  strip_dash_colon (a ++ b) = (strip_dash_colon a ++ strip_dash_colon b)%string.
Proof.
  induction a as [|c a IH]; simpl; [reflexivity|].
  destruct (Ascii.eqb c "-" || Ascii.eqb c ":")%bool; simpl; now rewrite IH.
Qed.

Lemma strip_plain (s : string) : plain s -> strip_dash_colon s = s.
Proof.
  unfold plain. induction s as [|c s IH]; simpl; intros [Hd Hc]; [reflexivity|].
  destruct (Ascii.eqb_spec c "-") as [E|N1]; [destruct Hd; now left|].
  destruct (Ascii.eqb_spec c ":") as [E|N2]; [destruct Hc; now left|].
  simpl. f_equal. apply IH. split; intros H; [apply Hd | apply Hc]; now right.
Qed.

Lemma strip_is_plain (s : string) : plain (strip_dash_colon s).
Proof.
  unfold plain. induction s as [|c s [IHd IHc]]; simpl; [tauto|].
  destruct (Ascii.eqb_spec c "-") as [E|N1]; simpl; [tauto|].
  destruct (Ascii.eqb_spec c ":") as [E|N2]; simpl; [tauto|].
  split; intros [H | H]; auto.
Qed.

(** X23. The time stamp written to the calendar file is the stored date
    with its dashes and colons removed and nothing else changed (the
    replacement of "T" by "T" is void): it has no dash and no colon left, a
    date without them is written as it is, and a date of the form
    [Y-M-DTh:m] is written [YMDThm]. *)
Theorem ics_start_spec (dt : string) :
  ics_start dt = strip_dash_colon dt
  /\ plain (ics_start dt)
  /\ (plain dt -> ics_start dt = dt)
  /\ (forall y m d h mi : string,
        plain y -> plain m -> plain d -> plain h -> plain mi ->
        ics_start (y ++ "-" ++ m ++ "-" ++ d ++ "T" ++ h ++ ":" ++ mi)
        = (y ++ m ++ d ++ "T" ++ h ++ mi)%string).
Proof.
  unfold ics_start. rewrite !replace_first_same.
  split; [reflexivity|]. split; [apply strip_is_plain|]. split; [apply strip_plain|].
  intros y m d h mi Hy Hm Hd Hh Hmi. rewrite replace_first_same.
  rewrite !strip_app.
  rewrite (strip_plain y Hy), (strip_plain m Hm), (strip_plain d Hd),
          (strip_plain h Hh), (strip_plain mi Hmi).
  reflexivity.
Qed.

Lemma ics_start_spec_witness :
  ics_start ("2024" ++ "-" ++ "05" ++ "-" ++ "06" ++ "T" ++ "07" ++ ":" ++ "08")
  = ("2024" ++ "05" ++ "06" ++ "T" ++ "07" ++ "08")%string.
Proof.
  apply (proj2 (proj2 (proj2 (ics_start_spec ""))) "2024" "05" "06" "07" "08");
    split; simpl; intuition discriminate.
Defined.

(** ** The single counter of the earlier revision *)

Module LegacyFacts.
Import SeqMap.
Local Open Scope Z_scope.

(** X24. In the earlier revision the one counter shared by all projects
    gives out consecutive numbers: from a stored number [k >= 0], or from an
    empty store with [k = 0], [n] calls return [k+1, ..., k+n] and, when
    [n > 0], leave [k+n] stored, as long as [k + n] does not pass [2^53]. *)
Theorem calls_spec (n : nat) (k : Z) (stored : option value) :
  (stored = None /\ k = 0) \/ stored = Some (Num k) ->
  0 <= k ->
  k + Z.of_nat n <= two53 ->
  Legacy.calls n stored
  = (List.map Num (countUp (k + 1) n),
     match n with O => stored | S _ => Some (Num (k + Z.of_nat n)) end).
Proof.
  revert k stored. induction n as [|n IH]; intros k stored H Hk Hb; [reflexivity|].
  assert (E : Legacy.nextEpisodeNumber stored = (Num (k + 1), Some (Num (k + 1)))).
  { unfold Legacy.nextEpisodeNumber, Legacy.load.
    destruct H as [[-> ->] | ->]; reflexivity. }
  cbn [Legacy.calls]. rewrite E.
  rewrite (IH (k + 1) (Some (Num (k + 1)))) by (try (now right); lia).
  cbn [List.map countUp]. f_equal.
  destruct n; f_equal; f_equal; lia.
Qed.

Lemma calls_spec_witness :
  Legacy.calls 3 (Some (Num 4)) = ([Num 5; Num 6; Num 7], Some (Num 7)).
Proof.
  apply (calls_spec 3 4 (Some (Num 4))); [now right | lia | vm_compute; discriminate].
Defined.

End LegacyFacts.

(** ** The self-tests *)

Module SmokeTestsFacts.
Import stdpp.base stdpp.option stdpp.gmap stdpp.strings.
Import SeqMap SmokeTests.
Local Open Scope string_scope.
Local Open Scope list_scope.
Local Open Scope Z_scope.

Lemma nextEpisodeNumber_other_keys (series key : string) (ls : Storage) :
  key <> LS_KEYS_seqMap ->
  snd (nextEpisodeNumber series ls) !! key = ls !! key.
Proof.
  intros H. unfold nextEpisodeNumber, save. cbn [snd].
  now rewrite lookup_insert_ne.
Qed.

Lemma stands_at_reset (series : string) (ls : Storage) :
  stands_at series 0 (save LS_KEYS_seqMap ∅ ls).
Proof.
  unfold stands_at. rewrite SeqMapFacts.load_save, lookup_omap, lookup_empty.
  reflexivity.
Qed.

Lemma JSON_roundtrip_id (o : obj) :
  (forall k v, o !! k = Some v -> JSON_roundtrip v = Some v) ->
  omap JSON_roundtrip o = o.
Proof.
  intros H. apply map_eq. intros k. rewrite lookup_omap.
  destruct (o !! k) as [v|] eqn:E; [|reflexivity].
  simpl. now apply (H k).
Qed.

(** X25. Whatever the store holds, the self-tests all pass, and they leave
    the store as they found it: the sequence map read back afterwards is the
    one read before (as JSON keeps it), so running the tests advances no
    series counter, and no other key is written. *)
Theorem runSmokeTests_spec (now : Z) (ls : Storage) :
  let r := runSmokeTests now ls in
  List.map snd (fst r) = [true; true; true; true; true; true; true]
  /\ load LS_KEYS_seqMap ∅ (snd r) = omap JSON_roundtrip (load LS_KEYS_seqMap ∅ ls)
  /\ ((forall k v, load LS_KEYS_seqMap ∅ ls !! k = Some v -> JSON_roundtrip v = Some v) ->
      load LS_KEYS_seqMap ∅ (snd r) = load LS_KEYS_seqMap ∅ ls)
  /\ (forall key, key <> LS_KEYS_seqMap -> snd r !! key = ls !! key).
Proof.
  intros r. subst r. unfold runSmokeTests.
  set (ls0 := save LS_KEYS_seqMap ∅ ls).
  assert (HM0 : stands_at "Main" 0 ls0) by apply stands_at_reset.
  assert (HG0 : stands_at "Guest Series" 0 ls0) by apply stands_at_reset.
  destruct (SeqMapFacts.nextEpisodeNumber_step "Main" 0 ls0 eq_refl ltac:(lia) HM0)
    as [Ha1 HM1].
  pose proof (SeqMapFacts.nextEpisodeNumber_frame "Guest Series" "Main" 0 ls0
                ltac:(discriminate) HG0) as HG1.
  pose proof (fun key => nextEpisodeNumber_other_keys "Main" key ls0) as HK1.
  destruct (nextEpisodeNumber "Main" ls0) as [a1 ls1]. cbn [fst snd] in *. subst a1.
  destruct (SeqMapFacts.nextEpisodeNumber_step "Main" 1 ls1 eq_refl ltac:(lia) HM1)
    as [Ha2 _].
  pose proof (SeqMapFacts.nextEpisodeNumber_frame "Guest Series" "Main" 0 ls1
                ltac:(discriminate) HG1) as HG2.
  pose proof (fun key => nextEpisodeNumber_other_keys "Main" key ls1) as HK2.
  destruct (nextEpisodeNumber "Main" ls1) as [a2 ls2]. cbn [fst snd] in *. subst a2.
  destruct (SeqMapFacts.nextEpisodeNumber_step "Guest Series" 0 ls2 eq_refl ltac:(lia) HG2)
    as [Hb1 _].
  pose proof (fun key => nextEpisodeNumber_other_keys "Guest Series" key ls2) as HK3.
  destruct (nextEpisodeNumber "Guest Series" ls2) as [b1 ls3]. cbn [fst snd] in *. subst b1.
  assert (Hload : load LS_KEYS_seqMap ∅
                    (save LS_KEYS_seqMap (load LS_KEYS_seqMap ∅ ls) ls3)
                  = omap JSON_roundtrip (load LS_KEYS_seqMap ∅ ls))
    by apply SeqMapFacts.load_save.
  split; [reflexivity|]. split; [exact Hload|]. split.
  - intros Hjson. rewrite Hload. now apply JSON_roundtrip_id.
  - intros key Hkey. unfold save at 1. rewrite lookup_insert_ne by congruence.
    rewrite HK3, HK2, HK1 by exact Hkey.
    unfold ls0, save. now rewrite lookup_insert_ne by congruence.
Qed.

Lemma runSmokeTests_spec_witness :
  let ls : Storage := {[ LS_KEYS_seqMap := {[ "Main" := Num 4 ]} ]} in
  load LS_KEYS_seqMap ∅ (snd (runSmokeTests 0 ls)) = load LS_KEYS_seqMap ∅ ls.
Proof.
  intros ls.
  apply (proj1 (proj2 (proj2 (runSmokeTests_spec 0 ls)))).
  intros k v. unfold ls, load. rewrite lookup_singleton_eq.
  intros H. apply lookup_singleton_Some in H. destruct H as [_ <-]. reflexivity.
Defined.

End SmokeTestsFacts.

(** ** More on the dashboard *)

Lemma total_range (l : list Z) :
  Forall (fun x => 0 <= x <= 100) l ->
  0 <= total l <= 100 * Z.of_nat (List.length l).
Proof.
  unfold total. induction 1 as [|x l Hx Hl IH]; simpl List.length; simpl fold_right; lia.
Qed.

Lemma Math_round_range (q : Q) :
  (0 <= q)%Q -> (q <= 100)%Q -> 0 <= Math_round q <= 100.
Proof.
  intros H0 H1. unfold Math_round. split.
  - change 0 with (Qfloor (0 + (1 # 2))). apply Qfloor_resp_le.
    apply Qplus_le_compat; [exact H0 | apply Qle_refl].
  - change 100 with (Qfloor (100 + (1 # 2))). apply Qfloor_resp_le.
    apply Qplus_le_compat; [exact H1 | apply Qle_refl].
Qed.

(** X26. The completed projects are among the active ones, which are among
    all projects: [completedCount <= activeCount <= projects.length].  When
    every project that is not archived has a percentage between 0 and 100,
    so has their rounded average. *)
Theorem dashboard_ranges (ps : list Project) :
  (completedCount ps <= activeCount ps <= List.length ps)%nat
  /\ ((forall p, In p ps -> Project.status p <> archived ->
         0 <= Project.progressPct p <= 100) ->
      exists z, avgProgress ps = Finite (inject_Z z) /\ 0 <= z <= 100).
Proof.
  split.
  - unfold completedCount, activeCount, Dashboard_completed, Dashboard_active.
    split.
    + induction ps as [|p ps IH]; simpl; [lia|].
      destruct (Project.status p); simpl; lia.
    + apply filter_length_le.
  - intros Hrange. unfold avgProgress.
    set (act := Dashboard_active ps).
    assert (Hall : Forall (fun x => 0 <= x <= 100) (map Project.progressPct act)).
    { rewrite Forall_forall. intros x Hx. apply in_map_iff in Hx.
      destruct Hx as [p [<- Hp]]. unfold act, Dashboard_active in Hp.
      apply filter_In in Hp. destruct Hp as [Hp Hs]. apply Hrange; [exact Hp|].
      intros E. rewrite E in Hs. discriminate. }
    apply total_range in Hall. rewrite length_map in Hall.
    rewrite fold_left_progress, Z.add_0_l.
    set (s := total (map Project.progressPct act)) in *.
    set (m := Z.max 1 (Z.of_nat (List.length act))).
    assert (Hm : 1 <= m) by (unfold m; lia).
    assert (Hs : 0 <= s <= 100 * m) by (unfold m; lia).
    unfold js_div. destruct (Z.eqb_spec m 0); [lia|]. simpl.
    eexists. split; [reflexivity|].
    assert (Hpos : (0 < inject_Z m)%Q) by (unfold Qlt; simpl; lia).
    apply Math_round_range.
    + apply Qle_shift_div_l; [exact Hpos|]. unfold Qle. simpl. lia.
    + apply Qle_shift_div_r; [exact Hpos|]. unfold Qle. simpl. lia.
Qed.

Lemma dashboard_ranges_witness :
  let ps := [sample "a" "A" "Main" 1 active high [] 25;
             sample "b" "B" "Main" 2 draft low [] 50] in
  exists z, avgProgress ps = Finite (inject_Z z) /\ 0 <= z <= 100.
Proof.
  intros ps. apply (proj2 (dashboard_ranges ps)).
  intros p [<- | [<- | []]] _; simpl; lia.
Defined.

(** ** The name given at first login *)

Lemma beforeAt_decompose (s : string) :
  (exists rest, s = (beforeAt s ++ rest)%string
                /\ (rest = "" \/ exists r, rest = String "@" r))
  /\ ~ In "@"%char (list_ascii_of_string (beforeAt s)).
Proof.
  induction s as [|c s [[rest [E Hr]] Hno]]; simpl.
  - split; [exists ""; auto | tauto].
  - destruct (Ascii.eqb_spec c "@") as [->|N]; simpl.
    + split; [exists (String "@" s); eauto | tauto].
    + split.
      * exists rest. split; [|exact Hr].
        change (String c s = String c (beforeAt s ++ rest)). now f_equal.
      * intros [H | H]; [congruence | contradiction].
Qed.

(** X27. A user created at login without a name (none given, or the empty
    text) is named by the start of the email: the name contains no ['@'],
    the email is that name followed either by nothing or by ['@'] and the
    rest.  A name that is given and not empty is taken as it is. *)
Theorem loginName_spec (email : string) :
  (forall name,
      name = None \/ name = Some "" ->
      ~ In "@"%char (list_ascii_of_string (loginName name email))
      /\ exists rest,
           email = (loginName name email ++ rest)%string
           /\ (rest = "" \/ exists r, rest = String "@" r))
  /\ (forall n, n <> "" -> loginName (Some n) email = n).
Proof.
  split.
  - intros name Hn.
    assert (E : loginName name email = beforeAt email).
    { unfold loginName. destruct Hn as [-> | ->]; simpl; apply split_hd. }
    rewrite E. destruct (beforeAt_decompose email) as [Hd Hno]. split; assumption.
  - intros n Hn. unfold loginName, falsy.
    destruct (String.eqb_spec n ""); [contradiction | reflexivity].
Qed.

Lemma loginName_spec_witness :
  loginName (Some "Bob") "bob@studio.com" = "Bob".
Proof. apply (proj2 (loginName_spec "bob@studio.com")). discriminate. Defined.

(** ** More on the sequence allocator *)

Module SeqMapMore.
Import stdpp.base stdpp.option stdpp.gmap stdpp.strings.
Import SeqMap.
Local Open Scope string_scope.
Local Open Scope list_scope.
Local Open Scope Z_scope.

(** X28. For a series name that no plain object inherits, whose counter
    stands at [k >= 0] (no entry for [k = 0]), the calls made for it return
    [k+1, k+2, ...] in this order, however many calls for other series come
    in between, as long as [k] plus the number of these calls does not pass
    [2^53]. *)
Theorem allocator_resumes (series : string) (l : list string) (k : Z) (ls : Storage) :
  Object_prototype series = Undefined ->
  0 <= k ->
  k + Z.of_nat (count_occ string_dec l series) <= two53 ->
  stands_at series k ls ->
  returned series (fst (calls l ls))
  = List.map Num (countUp (k + 1) (count_occ string_dec l series)).
Proof. intros Hclean Hk _. now apply SeqMapFacts.returned_from. Qed.

Lemma allocator_resumes_witness :
  let ls : Storage := {[ LS_KEYS_seqMap := {[ "Main" := Num 4 ]} ]} in
  returned "Main" (fst (calls ["Main"; "Guest Series"; "Main"] ls)) = [Num 5; Num 6].
Proof.
  intros ls.
  apply (allocator_resumes "Main" ["Main"; "Guest Series"; "Main"] 4 ls eq_refl).
  - lia.
  - vm_compute. discriminate.
  - unfold stands_at, load, ls. rewrite lookup_singleton_eq.
    now rewrite lookup_singleton_eq.
Defined.

(** X29. The first call for a series without an entry returns the number 1
    exactly when no plain object inherits a property of that name; for an
    inherited name ([constructor], [toString], [__proto__], ...) it returns
    a string. *)
Theorem first_call_spec (series : string) (ls : Storage) :
  load LS_KEYS_seqMap ∅ ls !! series = None ->
  (Object_prototype series = Undefined -> fst (nextEpisodeNumber series ls) = Num 1)
  /\ (Object_prototype series <> Undefined ->
      exists s, fst (nextEpisodeNumber series ls) = Str s).
Proof.
  intros Hnone. unfold nextEpisodeNumber, get. cbn [fst]. rewrite Hnone. split.
  - intros ->. reflexivity.
  - intros Hp. unfold Object_prototype in *.
    destruct (series =? "constructor")%string; [simpl; eauto|].
    destruct (existsb (String.eqb series) Object_prototype_methods); [simpl; eauto|].
    destruct (series =? "__proto__")%string; [simpl; eauto | contradiction].
Qed.

Lemma first_call_spec_witness :
  fst (nextEpisodeNumber "Guest Series" ∅) = Num 1.
Proof.
  assert (H : load LS_KEYS_seqMap ∅ (∅ : Storage) !! "Guest Series" = None)
    by reflexivity.
  apply (proj1 (first_call_spec "Guest Series" ∅ H)). reflexivity.
Defined.

End SeqMapMore.
